(** * pdf2md: the text-structure pipeline of [pdf2md.py]

    A shallow embedding of the line filter ([is_header_footer]), the line
    merger ([should_merge_lines], [merge_lines]), the two heading recognisers
    ([is_section_title], [identify_structure]) and the three loops and the
    writer of [convert_raw_to_markdown], followed by the properties the
    specification states about them.

    - Python strings are sequences of Unicode code points: a [str] is a
      list of code points, each a [Z].  String literals of the source are
      written as UTF-8 literals and decoded by [u].
    - The patterns of the source are terms of [regex]; [re.match] is the
      existence of an end position among those [run] lists.
    - The two [while] loops run on fuel and answer [None] when it runs
      out; the length of the list is shown to be fuel enough.
    - The pass is modelled from the lines of the raw text on, and the
      writer as the text written to the file.  Reading and writing files
      and the diagnostic [print]s have no part in what is proved. *)

From Stdlib Require Import Ascii String ZArith List Bool Lia.
From Stdlib Require DecimalString DecimalNat.
Import ListNotations.
Open Scope Z_scope.

(** ** Strings as lists of code points *)

Abbreviation str := (list Z).

Module Utf8.

(** The bytes of a literal, as numbers. *)
Definition bytes (s : string) : list Z :=
  map (fun a => Z.of_N (N_of_ascii a)) (list_ascii_of_string s).

(** [decode pending acc bs]: [pending] continuation bytes are still owed
    to the code point accumulated in [acc]. *)
Fixpoint decode (pending : nat) (acc : Z) (bs : list Z) : str :=
  match bs with
  | [] => []
  | b :: rest =>
      match pending with
      | O =>
          if b <? 128 then b :: decode O 0 rest
          else if b <? 224 then decode 1%nat (b - 192) rest
          else if b <? 240 then decode 2%nat (b - 224) rest
          else decode 3%nat (b - 240) rest
      | S O => (acc * 64 + (b - 128)) :: decode O 0 rest
      | S p => decode p (acc * 64 + (b - 128)) rest
      end
  end.

End Utf8.

(** The code points of a source literal. *)
Definition u (s : string) : str := Utf8.decode O 0 (Utf8.bytes s).

Fixpoint str_eqb (a b : str) : bool :=
  match a, b with
  | [], [] => true
  | x :: a', y :: b' => (x =? y) && str_eqb a' b'
  | _, _ => false
  end.

(** [s.startswith(p)] *)
Fixpoint startswith (s p : str) {struct p} : bool :=
  match p, s with
  | [], _ => true
  | x :: p', y :: s' => (x =? y) && startswith s' p'
  | _ :: _, [] => false
  end.

(** [s.endswith(p)] *)
Definition endswith (s p : str) : bool := startswith (rev s) (rev p).

(** [sub in s] *)
Fixpoint contains (s sub : str) : bool :=
  startswith s sub ||
  match s with
  | [] => false
  | _ :: s' => contains s' sub
  end.

(** [not s] on a string or a list: emptiness. *)
Definition is_empty {A : Type} (l : list A) : bool :=
  match l with [] => true | _ => false end.

(** ** The Unicode data the built-ins consult *)

(** [str.isspace] on one code point, which is also what [str.strip()] removes
    and what [\s] matches in a [str] pattern. *)
Definition isspace (c : Z) : bool :=
  ((9 <=? c) && (c <=? 13)) || ((28 <=? c) && (c <=? 32)) ||
  (c =? 133) || (c =? 160) || (c =? 5760) ||
  ((8192 <=? c) && (c <=? 8202)) || (c =? 8232) || (c =? 8233) ||
  (c =? 8239) || (c =? 8287) || (c =? 12288).

Definition ascii_digit (c : Z) : bool := (48 <=? c) && (c <=? 57).
Definition ascii_upper (c : Z) : bool := (65 <=? c) && (c <=? 90).
Definition ascii_lower (c : Z) : bool := (97 <=? c) && (c <=? 122).
Definition ascii_alpha (c : Z) : bool := ascii_upper c || ascii_lower c.
Definition is_ascii (c : Z) : bool := c <? 128.

(** CJK Unified Ideographs, U+4E00..U+9FFF: no case, no case folding. *)
Definition ideograph (c : Z) : bool := (19968 <=? c) && (c <=? 40959).

(** The code points whose case behaviour is fixed here. *)
Definition caseless_or_ascii (c : Z) : bool := is_ascii c || ideograph c.

(** Lower-casing of an ASCII code point. *)
Definition ascii_tolower (c : Z) : Z := if ascii_upper c then c + 32 else c.

(** The rest of the Unicode character database is not part of the
    repository: the tables are an interface, and every property below
    holds for whatever they contain. *)
Class UnicodeTables := {
  (** [str.isdigit] on a code point above ASCII *)
  table_isdigit : Z -> bool;
  (** [\d] (decimal digit) on a code point above ASCII *)
  table_isdecimal : Z -> bool;
  (** [str.lower] of a code point that is neither ASCII nor an ideograph,
      given the code points before and after it (capital sigma looks at
      its context) *)
  table_lower : str -> Z -> str -> str;
  (** under [re.IGNORECASE]: does the ASCII letter [l] of a pattern match
      a code point that is neither ASCII nor an ideograph *)
  table_ignorecase : Z -> Z -> bool
}.

(** Tables with nothing in them: enough for text in ASCII and
    ideographs, where the tables are not consulted, and for code points
    with no digit value and no case. *)
Definition plain_tables : UnicodeTables :=
  {| table_isdigit := fun _ => false;
     table_isdecimal := fun _ => false;
     table_lower := fun _ c _ => [c];
     table_ignorecase := fun _ _ => false |}.

Section Builtins.

Context {U : UnicodeTables}.

(** One code point of [str.isdigit]. *)
Definition isdigit_cp (c : Z) : bool :=
  if is_ascii c then ascii_digit c else table_isdigit c.

(** [s.isdigit()]: every code point a digit, and at least one. *)
Definition isdigit (s : str) : bool :=
  negb (is_empty s) && forallb isdigit_cp s.

(** [\d] *)
Definition isdecimal_cp (c : Z) : bool :=
  if is_ascii c then ascii_digit c else table_isdecimal c.

Definition lower_cp (before : str) (c : Z) (after : str) : str :=
  if caseless_or_ascii c then [ascii_tolower c] else table_lower before c after.

Fixpoint lower_from (before s : str) : str :=
  match s with
  | [] => []
  | c :: rest => lower_cp before c rest ++ lower_from (before ++ [c]) rest
  end.

(** [s.lower()] *)
Definition lower (s : str) : str := lower_from [] s.

(** A literal [l] of a pattern compiled with [re.IGNORECASE], against the
    code point [c]. *)
Definition ignorecase_eq (l c : Z) : bool :=
  if ascii_alpha l
  then if caseless_or_ascii c then ascii_tolower c =? ascii_tolower l
       else table_ignorecase l c
  else c =? l.

End Builtins.

Fixpoint lstrip (s : str) : str :=
  match s with
  | [] => []
  | c :: rest => if isspace c then lstrip rest else s
  end.

Definition rstrip (s : str) : str := rev (lstrip (rev s)).

(** [s.strip()] *)
Definition strip (s : str) : str := rstrip (lstrip s).

(** ** Regular expressions, as [re.match] runs them

    A position is the number of code points consumed so far and the text
    that remains.  [run r st] lists every position at which a match of [r]
    started at [st] can end; [re.match] succeeds when there is one. *)

Abbreviation pos := (nat * list Z)%type.

Inductive regex :=
| Eps
| Bos                       (* ^ *)
| Eos                       (* $ *)
| Cls (p : Z -> bool)       (* a literal, a class, a category or . *)
| Cat (a b : regex)
| Alt (a b : regex)
| Star (a : regex)
| Plus (a : regex).

Declare Scope regex_scope.
Delimit Scope regex_scope with re.
Bind Scope regex_scope with regex.
Infix ";;" := Cat (at level 61, right associativity) : regex_scope.
Infix "<|>" := Alt (at level 62, right associativity) : regex_scope.

(** Repetition of [f]: stay, or take one step that consumes something and
    repeat. *)
Fixpoint iter (f : pos -> list pos) (n : nat) (st : pos) : list pos :=
  st ::
  match n with
  | O => []
  | S n' =>
      flat_map (iter f n')
        (filter (fun st' => (length (snd st') <? length (snd st))%nat) (f st))
  end.

(** Where [$] holds: at the end of the text, or just before a newline
    that ends it. *)
Definition at_end (s : str) : bool :=
  match s with
  | [] => true
  | [c] => c =? 10
  | _ => false
  end.

Fixpoint run (r : regex) (st : pos) : list pos :=
  match r with
  | Eps => [st]
  | Bos => match fst st with O => [st] | S _ => [] end
  | Eos => if at_end (snd st) then [st] else []
  | Cls p =>
      match snd st with
      | c :: rest => if p c then [(S (fst st), rest)] else []
      | [] => []
      end
  | Cat a b => flat_map (run b) (run a st)
  | Alt a b => run a st ++ run b st
  | Star a => iter (run a) (length (snd st)) st
  | Plus a => flat_map (fun st' => iter (run a) (length (snd st')) st') (run a st)
  end.

(** [re.match(r, s)] as a truth value. *)
Definition re_match (r : regex) (s : str) : bool := negb (is_empty (run r (O, s))).

(** A run of literal code points. *)
Definition lits (cs : str) : regex :=
  fold_right (fun c r => Cat (Cls (Z.eqb c)) r) Eps cs.

Definition lit (s : string) : regex := lits (u s).

(** Can [r] match without consuming anything? *)
Fixpoint nullable (r : regex) : bool :=
  match r with
  | Eps | Bos | Eos => true
  | Cls _ => false
  | Cat a b => nullable a && nullable b
  | Alt a b => nullable a || nullable b
  | Star _ => true
  | Plus a => nullable a
  end.

(** Can a match of [r] that consumes something begin with [c]? *)
Fixpoint first (r : regex) (c : Z) : bool :=
  match r with
  | Eps | Bos | Eos => false
  | Cls p => p c
  | Cat a b => first a c || (nullable a && first b c)
  | Alt a b => first a c || first b c
  | Star a => first a c
  | Plus a => first a c
  end.

(** [le r r']: [r'] is [r] with some classes widened and some [+] turned
    into [*]. *)
Inductive le : regex -> regex -> Prop :=
| le_refl r : le r r
| le_cls (p q : Z -> bool) : (forall c, p c = true -> q c = true) -> le (Cls p) (Cls q)
| le_cat a a' b b' : le a a' -> le b b' -> le (Cat a b) (Cat a' b')
| le_alt a a' b b' : le a a' -> le b b' -> le (Alt a b) (Alt a' b')
| le_star a a' : le a a' -> le (Star a) (Star a')
| le_plus a a' : le a a' -> le (Plus a) (Plus a')
| le_plus_star a a' : le a a' -> le (Plus a) (Star a').

(** [st'] is [st] after some code points [w] were consumed. *)
Definition reaches (st st' : pos) : Prop :=
  exists w, snd st = w ++ snd st' /\ fst st' = (fst st + length w)%nat.

(** [[...]]: a class listing the code points of [s]. *)
Definition one_of (s : string) (c : Z) : bool := existsb (Z.eqb c) (u s).

(** [.]: anything but a newline. *)
Definition dot (c : Z) : bool := negb (c =? 10).

(** [[一二三四五六七八九十百千万零0-9]] *)
Definition numeral (c : Z) : bool :=
  one_of "一二三四五六七八九十百千万零" c || ascii_digit c.

Inductive label :=
| toc_header | toc_item | preface | chapter | section | appendix
| references | content.

Definition label_eqb (a b : label) : bool :=
  match a, b with
  | toc_header, toc_header | toc_item, toc_item | preface, preface
  | chapter, chapter | section, section | appendix, appendix
  | references, references | content, content => true
  | _, _ => false
  end.

(** [x in [...]] on labels. *)
Definition label_in (x : label) (l : list label) : bool := existsb (label_eqb x) l.

(** A structured record: [(structure_type, content)]. *)
Abbreviation record := (label * list Z)%type.

Definition nl : str := [10].

Section Program.

Context {U : UnicodeTables}.

(** A run of literals under [re.IGNORECASE]. *)
Definition lit_i (s : string) : regex :=
  fold_right (fun c r => Cat (Cls (ignorecase_eq c)) r) Eps (u s).

(** *** The patterns of the source *)

(** [^--- 第 \d+ 页 ---$] *)
Definition re_page_marker : regex :=
  (Bos ;; lit "--- 第 " ;; Plus (Cls isdecimal_cp) ;; lit " 页 ---" ;; Eos)%re.

(** [^第\s*\d+\s*页$] *)
Definition re_page_cn : regex :=
  (Bos ;; lit "第" ;; Star (Cls isspace) ;; Plus (Cls isdecimal_cp) ;;
   Star (Cls isspace) ;; lit "页" ;; Eos)%re.

(** [^Page\s*\d+\s*of\s*\d+$] *)
Definition re_page_en : regex :=
  (Bos ;; lit "Page" ;; Star (Cls isspace) ;; Plus (Cls isdecimal_cp) ;;
   Star (Cls isspace) ;; lit "of" ;; Star (Cls isspace) ;;
   Plus (Cls isdecimal_cp) ;; Eos)%re.

(** [^第[一二三四五六七八九十百千万零0-9]+章$] *)
Definition re_chapter_bare : regex :=
  (Bos ;; lit "第" ;; Plus (Cls numeral) ;; lit "章" ;; Eos)%re.

(** [^第[一二三四五六七八九十百千万零0-9]+章[ ]+], of [is_section_title] *)
Definition re_chapter_space : regex :=
  (Bos ;; lit "第" ;; Plus (Cls numeral) ;; lit "章" ;; Plus (Cls (one_of " ")))%re.

(** [^第[一二三四五六七八九十百千万零0-9]+节[ ]+], of [is_section_title] *)
Definition re_section_space : regex :=
  (Bos ;; lit "第" ;; Plus (Cls numeral) ;; lit "节" ;; Plus (Cls (one_of " ")))%re.

(** [^(目\s*录|目\s*次|CONTENTS|TABLE OF CONTENTS)$], with [re.IGNORECASE] *)
Definition re_toc : regex :=
  (Bos ;;
   ((lit_i "目" ;; Star (Cls isspace) ;; lit_i "录") <|>
    (lit_i "目" ;; Star (Cls isspace) ;; lit_i "次") <|>
    lit_i "CONTENTS" <|>
    lit_i "TABLE OF CONTENTS") ;;
   Eos)%re.

(** [^(前言|序言|引言|致谢|序|preface|introduction|acknowledgement)$] *)
Definition re_preface : regex :=
  (Bos ;;
   (lit "前言" <|> lit "序言" <|> lit "引言" <|> lit "致谢" <|> lit "序" <|>
    lit "preface" <|> lit "introduction" <|> lit "acknowledgement") ;;
   Eos)%re.

(** [^第[一二三四五六七八九十百千万零0-9]+章[ 　]+], of [identify_structure] *)
Definition re_chapter_title : regex :=
  (Bos ;; lit "第" ;; Plus (Cls numeral) ;; lit "章" ;; Plus (Cls (one_of " 　")))%re.

(** [[\s\.．]] *)
Definition section_sep (c : Z) : bool := isspace c || one_of ".．" c.

(** [^([0-9]+\.[0-9.]+)[\s\.．]+], then a last group [.*] that takes the
    rest of the line *)
Definition re_numbered : regex :=
  (Bos ;;
   (Plus (Cls ascii_digit) ;; lit "." ;;
    Plus (Cls (fun c => ascii_digit c || one_of "." c))) ;;
   Plus (Cls section_sep) ;; Star (Cls dot))%re.

(** [^第[一二三四五六七八九十百千万零0-9]+节[\s　]*] *)
Definition re_section_cn : regex :=
  (Bos ;; lit "第" ;; Plus (Cls numeral) ;; lit "节" ;;
   Star (Cls (fun c => isspace c || one_of "　" c)))%re.

(** [^(附录|appendix)[\s　a-zA-Z]*] *)
Definition re_appendix : regex :=
  (Bos ;; (lit "附录" <|> lit "appendix") ;;
   Star (Cls (fun c => isspace c || one_of "　" c || ascii_lower c || ascii_upper c)))%re.

(** [^(参考文献|references)$] *)
Definition re_references : regex :=
  (Bos ;; (lit "参考文献" <|> lit "references") ;; Eos)%re.

(** *** The line filter *)

Definition common_header_footer : list str := [u "©"; u "版权所有"].

Definition is_header_footer (text : str) : bool :=
  if is_empty text then true
  else if isdigit (strip text) then true
  else if re_match re_page_marker (strip text) then true
  else if str_eqb (strip text) (u "页") || str_eqb (strip text) (u "Page") then true
  else if re_match re_page_cn (strip text) || re_match re_page_en (strip text) then true
  else existsb (fun keyword => contains text keyword) common_header_footer.

(** *** The line merger *)

Definition end_punctuation : list str :=
  map u ["。"; "！"; "？"; "；"; "："; "."; "!"; "?"; ";"; ":"]%string.

Definition start_punctuation : list str :=
  map u ["。"; "！"; "？"; "；"; "："; "."; "!"; "?"; ";"; ":"]%string.

Definition should_merge_lines (line1 line2 : str) : bool :=
  if is_empty line1 || is_empty line2 then false
  else if existsb (fun p => endswith line1 p) end_punctuation then false
  else if existsb (fun p => startswith line2 p) start_punctuation then false
  else if (length line1 <? 10)%nat && (length line2 <? 10)%nat then false
  else true.

(** The body of the [for] loop of [merge_lines], on the pair
    [(merged_lines, current_line)]. *)
Definition merge_step (st : list str * str) (next_line : str) : list str * str :=
  let '(merged_lines, current_line) := st in
  if should_merge_lines current_line next_line
  then (merged_lines, current_line ++ next_line)
  else (merged_lines ++ [current_line], next_line).

Definition merge_lines (lines : list str) : list str :=
  match lines with
  | [] => []
  | first :: rest =>
      let '(merged_lines, current_line) := fold_left merge_step rest ([], first) in
      merged_lines ++ [current_line]
  end.

(** *** The two heading recognisers (their diagnostic [print]s left out) *)

Definition is_section_title (line : str) : bool :=
  if is_empty line || is_empty (strip line) then false
  else
    let line := strip line in
    if re_match re_chapter_bare line then true
    else if re_match re_chapter_space line then true
    else if re_match re_section_space line then true
    else false.

Definition identify_structure (text : str) : record :=
  let text_lower := strip (lower text) in
  if re_match re_toc text_lower then (toc_header, text)
  else if re_match re_preface text_lower then (preface, text)
  else if re_match re_chapter_bare text then (chapter, text)
  else if re_match re_chapter_title text then (chapter, text)
  else if re_match re_numbered text then (section, text)
  else if re_match re_section_cn text then (section, text)
  else if re_match re_appendix text_lower then (appendix, text)
  else if re_match re_references text_lower then (references, text)
  else (content, text).

(** *** [convert_raw_to_markdown], from the lines of the raw text on *)

Definition heading_labels : list label :=
  [preface; chapter; section; appendix; references].

(** The test both loops apply to a line: a heading, never merged. *)
Definition is_title (line : str) : bool :=
  is_section_title line || label_in (fst (identify_structure line)) heading_labels.

(** [line.startswith("--- 第") and line.endswith("页 ---")] *)
Definition is_page_marker (line : str) : bool :=
  startswith line (u "--- 第") && endswith line (u "页 ---").

(** [if current_lines: all_text_lines.extend(current_lines); current_lines = []] *)
Definition flush (st : list str * list str) : list str * list str :=
  let '(all_text_lines, current_lines) := st in
  if is_empty current_lines then st else (all_text_lines ++ current_lines, []).

(** [line.strip() and not is_header_footer(line.strip())] *)
Definition kept (line : str) : bool :=
  negb (is_empty (strip line)) && negb (is_header_footer (strip line)).

(** The body of the first loop, on [(all_text_lines, current_lines)]. *)
Definition filter_step (st : list str * list str) (line : str)
  : list str * list str :=
  if is_page_marker line then flush st
  else if kept line then
    if is_title (strip line) then
      let '(all_text_lines, current_lines) := flush st in
      (all_text_lines ++ [strip line], current_lines)
    else (fst st, snd st ++ [strip line])
  else st.

Definition all_text_lines (lines : list str) : list str :=
  fst (flush (fold_left filter_step lines ([], []))).

(** The inner [while] of the second loop: from index [j], collect lines
    while they are not headings.  [None]: out of fuel. *)
Fixpoint scan_non_title (fuel : nat) (all : list str) (j : nat)
    (non_title_lines : list str) : option (nat * list str) :=
  match nth_error all j with
  | Some l =>
      if negb (is_title l) then
        match fuel with
        | O => None
        | S fuel' => scan_non_title fuel' all (S j) (non_title_lines ++ [l])
        end
      else Some (j, non_title_lines)
  | None => Some (j, non_title_lines)
  end.

(** The outer [while i < len(all_text_lines)] of the second loop. *)
Fixpoint merge_loop (fuel : nat) (all : list str) (i : nat)
    (processed_lines : list str) : option (list str) :=
  match nth_error all i with
  | None => Some processed_lines
  | Some line =>
      match fuel with
      | O => None
      | S fuel' =>
          if is_title line then merge_loop fuel' all (S i) (processed_lines ++ [line])
          else
            match scan_non_title (length all) all (S i) [line] with
            | Some (j, non_title_lines) =>
                merge_loop fuel' all j (processed_lines ++ merge_lines non_title_lines)
            | None => None
            end
      end
  end.

Definition processed_lines (all : list str) : option (list str) :=
  merge_loop (length all) all O [].

(** The body of the third loop. *)
Definition structure_step (structured_content : list record) (line : str)
  : list record :=
  let '(structure_type, content') := identify_structure line in
  if label_eqb structure_type content
  then structured_content ++ [(structure_type, content')]
  else if label_in structure_type [toc_header; toc_item] then structured_content
  else structured_content ++ [(structure_type, content')].

Definition structured_content (processed : list str) : list record :=
  fold_left structure_step processed [].

(** The three loops: from the lines of the raw text to the records. *)
Definition structuring_pass (lines : list str) : option (list record) :=
  match processed_lines (all_text_lines lines) with
  | Some processed => Some (structured_content processed)
  | None => None
  end.

(** *** The writer: [md_file.write] appends to the text of the file *)

Definition write (md_file s : str) : str := md_file ++ s.

Definition write_record (md_file : str) (r : record) : str :=
  let '(structure_type, content') := r in
  match structure_type with
  | preface =>
      write (write md_file (u "# " ++ content' ++ nl ++ nl)) (u "---" ++ nl ++ nl)
  | chapter =>
      write (write md_file (u "# " ++ content' ++ nl ++ nl)) (u "---" ++ nl ++ nl)
  | section => write md_file (u "## " ++ content' ++ nl ++ nl)
  | appendix =>
      write (write md_file (u "# " ++ content' ++ nl ++ nl)) (u "---" ++ nl ++ nl)
  | references =>
      write (write md_file (u "# " ++ content' ++ nl ++ nl)) (u "---" ++ nl ++ nl)
  | _ => write md_file (content' ++ nl ++ nl)
  end.

(** The text written at the end of every document. *)
Definition attribution : str :=
  (nl ++ nl ++ u "---" ++ nl ++ nl) ++ (u "*由PDF2MD自动转换生成*" ++ nl).

Definition write_markdown (records : list record) : str :=
  let md_file := fold_left write_record records [] in
  let md_file := write md_file (nl ++ nl ++ u "---" ++ nl ++ nl) in
  write md_file (u "*由PDF2MD自动转换生成*" ++ nl).

End Program.

(** ** The loops of the pass, by recursion on the list of lines

    What the index-driven loops compute, written on the list itself; the
    loops are proved equal to these below. *)

Section Segments.

Context {U : UnicodeTables}.

(** All the lines of a state of the first loop: those moved to
    [all_text_lines], then those still pending. *)
Definition total (st : list str * list str) : list str := fst st ++ snd st.

(** The lines the first loop keeps, trimmed, in their order. *)
Definition prepared (lines : list str) : list str :=
  map strip (filter (fun line => negb (is_page_marker line) && kept line) lines).

(** The longest prefix of lines that are no headings, and what follows it. *)
Fixpoint leading (ls : list str) : list str :=
  match ls with
  | [] => []
  | l :: rest => if is_title l then [] else l :: leading rest
  end.

Fixpoint after_leading (ls : list str) : list str :=
  match ls with
  | [] => []
  | l :: rest => if is_title l then ls else after_leading rest
  end.

(** Headings stand alone; the lines between two headings are merged
    together.  [pending] is the run collected so far. *)
Fixpoint segments (ls : list str) (pending : list str) : list str :=
  match ls with
  | [] => merge_lines pending
  | l :: rest =>
      if is_title l then merge_lines pending ++ l :: segments rest []
      else segments rest (pending ++ [l])
  end.

(** The records of one processed line: none for a table-of-contents
    line, its classification otherwise. *)
Definition emit (line : str) : list record :=
  if label_in (fst (identify_structure line)) [toc_header; toc_item] then []
  else [identify_structure line].

(** A line that reaches the records as a heading: no page marker, not
    dropped by the filter, and a heading once trimmed. *)
Definition surviving_heading (line : str) : Prop :=
  is_page_marker line = false /\ kept line = true /\ is_title (strip line) = true.

End Segments.

(** ** The raw text: what [convert_pdf_to_text] writes and how the pass
    reads it back *)

(** [s.split('\n')]: the pieces between the newlines, an empty piece
    where two newlines meet or the text begins or ends with one. *)
Fixpoint split_newline (s : str) : list str :=
  match s with
  | [] => [[]]
  | c :: rest =>
      if c =? 10 then [] :: split_newline rest
      else
        match split_newline rest with
        | [] => [[c]]
        | piece :: pieces => (c :: piece) :: pieces
        end
  end.

(** [sep.join(parts)] *)
Fixpoint join (sep : str) (parts : list str) : str :=
  match parts with
  | [] => []
  | part :: rest =>
      match rest with
      | [] => part
      | _ :: _ => part ++ sep ++ join sep rest
      end
  end.

(** The code points of a literal of the Standard Library's strings. *)
Definition code_points (s : string) : str := Utf8.decode O 0 (Utf8.bytes s).

(** [f"{page_num}"] for a page number: its decimal digits. *)
Definition decimal (page_num : nat) : str :=
  code_points (DecimalString.NilEmpty.string_of_uint (Nat.to_uint page_num)).

(** [f"--- 第 {page_num} 页 ---"] *)
Definition page_marker_line (page_num : nat) : str :=
  u "--- 第 " ++ decimal page_num ++ u " 页 ---".

(** [f"--- 第 {page_num} 页 ---\n{text}\n"] *)
Definition page_chunk (page_num : nat) (text : str) : str :=
  page_marker_line page_num ++ nl ++ text ++ nl.

(** The body of the loop over the pages, on [(page_num, all_text)]; a page
    is what [extract_text] gave for it, [None] or a text. *)
Definition extract_step (st : nat * list str) (page : option str)
  : nat * list str :=
  let '(page_num, all_text) := st in
  (S page_num,
   match page with
   | Some text => if is_empty text then all_text else all_text ++ [page_chunk page_num text]
   | None => all_text
   end).

(** The text [convert_pdf_to_text] writes to the raw file. *)
Definition raw_text (pages : list (option str)) : str :=
  join nl (snd (fold_left extract_step pages (1%nat, []))).

(** The pages that have text, with their numbers, counted from
    [page_num]. *)
Fixpoint pages_with_text (page_num : nat) (pages : list (option str))
  : list (nat * str) :=
  match pages with
  | [] => []
  | page :: rest =>
      match page with
      | Some text =>
          if is_empty text then pages_with_text (S page_num) rest
          else (page_num, text) :: pages_with_text (S page_num) rest
      | None => pages_with_text (S page_num) rest
      end
  end.

(** A text that is not empty and has no white space at either end. *)
Definition trimmed (s : str) : Prop := s <> [] /\ strip s = s.

(** ** Specification-side vocabulary *)

(** The sentence-terminal marks of the specification. *)
Definition terminal_marks : list Z := u "。！？；：.!?;:".

Definition ends_with_mark (a : str) : Prop :=
  exists a' m, In m terminal_marks /\ a = a' ++ [m].

Definition starts_with_mark (b : str) : Prop :=
  exists m b', In m terminal_marks /\ b = m :: b'.

(** Integers joined by full stops: [1], [1.1], [2.3.4]. *)
Fixpoint dotted (ints : list str) : str :=
  match ints with
  | [] => []
  | i :: rest =>
      match rest with
      | [] => i
      | _ :: _ => i ++ u "." ++ dotted rest
      end
  end.

(** A non-empty run of the digits [0]..[9]. *)
Definition integer (i : str) : Prop := i <> [] /\ forallb ascii_digit i = true.

(** A line of at least [k] dot-separated integers, a separator and a
    title. *)
Definition numbered_line (k : nat) (line : str) : Prop :=
  exists ints seps title,
    (k <= length ints)%nat /\ Forall integer ints /\
    seps <> [] /\ forallb section_sep seps = true /\
    line = dotted ints ++ seps ++ title.

(** The labels that are no heading. *)
Definition plain_labels : list label := [content; toc_header; toc_item].

(** The blocks of the output markup. *)
Definition heading1 (c : str) : str := u "# " ++ c ++ nl ++ nl.
Definition heading2 (c : str) : str := u "## " ++ c ++ nl ++ nl.
Definition rule : str := u "---" ++ nl ++ nl.
Definition paragraph (c : str) : str := c ++ nl ++ nl.

(** ** Strings *)

Lemma startswith_iff (s p : str) :
  startswith s p = true <-> exists t, s = p ++ t.
Proof.
  revert s; induction p as [|x p IH]; intros s; simpl.
  - split; [intros _; now exists s | reflexivity].
  - destruct s as [|y s].
    + split; [discriminate | intros [t Ht]; discriminate].
    + rewrite andb_true_iff, Z.eqb_eq, IH. split.
      * intros [-> [t ->]]. now exists t.
      * intros [t Ht]. injection Ht as -> ->. split; [reflexivity | now exists t].
Qed.

Lemma endswith_iff (s p : str) :
  endswith s p = true <-> exists t, s = t ++ p.
Proof.
  unfold endswith. rewrite startswith_iff. split.
  - intros [t Ht]. exists (rev t).
    rewrite <- (rev_involutive s), Ht, rev_app_distr, rev_involutive. reflexivity.
  - intros [t ->]. exists (rev t). apply rev_app_distr.
Qed.

Lemma is_empty_true {A : Type} (l : list A) : is_empty l = true <-> l = [].
Proof. destruct l; simpl; split; congruence. Qed.

Lemma is_empty_false {A : Type} (l : list A) : is_empty l = false <-> l <> [].
Proof. destruct l; simpl; split; congruence. Qed.

(** ** The line merger *)

Lemma end_punctuation_marks :
  end_punctuation = map (fun m => [m]) terminal_marks.
Proof. reflexivity. Qed.

Lemma start_punctuation_marks :
  start_punctuation = map (fun m => [m]) terminal_marks.
Proof. reflexivity. Qed.

Lemma ends_with_mark_iff (a : str) :
  existsb (fun p => endswith a p) end_punctuation = true <-> ends_with_mark a.
Proof.
  rewrite existsb_exists, end_punctuation_marks. unfold ends_with_mark. split.
  - intros [p [Hp He]]. apply in_map_iff in Hp as [m [<- Hm]].
    apply endswith_iff in He as [t ->]. now exists t, m.
  - intros [a' [m [Hm ->]]]. exists [m]. split.
    + apply in_map_iff. now exists m.
    + apply endswith_iff. now exists a'.
Qed.

Lemma starts_with_mark_iff (b : str) :
  existsb (fun p => startswith b p) start_punctuation = true <-> starts_with_mark b.
Proof.
  rewrite existsb_exists, start_punctuation_marks. unfold starts_with_mark. split.
  - intros [p [Hp He]]. apply in_map_iff in Hp as [m [<- Hm]].
    apply startswith_iff in He as [t ->]. now exists m, t.
  - intros [m [b' [Hm ->]]]. exists [m]. split.
    + apply in_map_iff. now exists m.
    + apply startswith_iff. now exists b'.
Qed.

Lemma should_merge_lines_true_iff (a b : str) :
  should_merge_lines a b = true <->
  a <> [] /\ b <> [] /\ ~ ends_with_mark a /\ ~ starts_with_mark b /\
  ~ ((length a < 10)%nat /\ (length b < 10)%nat).
Proof.
  unfold should_merge_lines.
  rewrite <- ends_with_mark_iff, <- starts_with_mark_iff.
  destruct (is_empty a) eqn:Ea; cbn [orb].
  { apply is_empty_true in Ea. split; [discriminate | tauto]. }
  destruct (is_empty b) eqn:Eb; cbn [orb].
  { apply is_empty_true in Eb. split; [discriminate | tauto]. }
  apply is_empty_false in Ea, Eb.
  destruct (existsb (fun p => endswith a p) end_punctuation).
  { split; [discriminate | intros (_ & _ & H & _); now elim H]. }
  destruct (existsb (fun p => startswith b p) start_punctuation).
  { split; [discriminate | intros (_ & _ & _ & H & _); now elim H]. }
  destruct (Nat.ltb_spec (length a) 10); destruct (Nat.ltb_spec (length b) 10);
    cbn [andb]; split; try discriminate; try tauto; intros _;
    repeat split; auto; try discriminate; lia.
Qed.

(** C1: [should_merge_lines a b] is false when [a] or [b] is empty, when
    [a] ends with a sentence-terminal mark, when [b] begins with one, and
    when both are shorter than 10 characters; it is true otherwise.  In
    particular it is false for non-empty [a], [b] when [a] ends in a
    full stop or [b] starts with one. *)
Theorem should_merge_lines_rules (a b : str) :
  ((a = [] \/ b = []) -> should_merge_lines a b = false) /\
  (ends_with_mark a -> should_merge_lines a b = false) /\
  (starts_with_mark b -> should_merge_lines a b = false) /\
  ((length a < 10)%nat /\ (length b < 10)%nat -> should_merge_lines a b = false) /\
  (a <> [] -> b <> [] -> ~ ends_with_mark a -> ~ starts_with_mark b ->
   ~ ((length a < 10)%nat /\ (length b < 10)%nat) ->
   should_merge_lines a b = true) /\
  (a <> [] -> b <> [] ->
   (exists a', a = a' ++ u ".") \/ (exists b', b = u "." ++ b') ->
   should_merge_lines a b = false).
Proof.
  assert (F : forall P : Prop,
             (should_merge_lines a b = true -> ~ P) ->
             P -> should_merge_lines a b = false).
  { intros P H HP. destruct (should_merge_lines a b); [now elim (H eq_refl) | reflexivity]. }
  repeat split.
  - apply F. rewrite should_merge_lines_true_iff. tauto.
  - apply F. rewrite should_merge_lines_true_iff. tauto.
  - apply F. rewrite should_merge_lines_true_iff. tauto.
  - apply F. rewrite should_merge_lines_true_iff. tauto.
  - intros. apply should_merge_lines_true_iff. tauto.
  - intros _ _. apply F. rewrite should_merge_lines_true_iff.
    intros (_ & _ & He & Hs & _) [[a' ->] | [b' ->]].
    + apply He. exists a', 46. split; [vm_compute; tauto | reflexivity].
    + apply Hs. exists 46, b'. split; [vm_compute; tauto | reflexivity].
Qed.

Lemma merge_step_concat (rest : list str) (merged : list str) (cur : str) :
  concat (fst (fold_left merge_step rest (merged, cur)) ++
          [snd (fold_left merge_step rest (merged, cur))]) =
  concat merged ++ cur ++ concat rest.
Proof.
  revert merged cur; induction rest as [|l rest IH]; intros merged cur; simpl.
  - rewrite concat_app. simpl. now rewrite app_nil_r.
  - destruct (should_merge_lines cur l); rewrite IH.
    + now rewrite <- app_assoc.
    + rewrite concat_app. simpl. now rewrite app_nil_r, <- app_assoc.
Qed.

(** C10: [merge_lines] loses no text and invents none: the concatenation
    of its output is the concatenation of its input; the empty list gives
    the empty list and a non-empty list a non-empty one. *)
Theorem merge_lines_preserves_text (lines : list str) :
  concat (merge_lines lines) = concat lines /\
  merge_lines [] = [] /\
  (lines <> [] -> merge_lines lines <> []).
Proof.
  split; [|split].
  - destruct lines as [|l rest]; [reflexivity|].
    unfold merge_lines.
    pose proof (merge_step_concat rest [] l) as H.
    destruct (fold_left merge_step rest ([], l)) as [m c]. exact H.
  - reflexivity.
  - destruct lines as [|l rest]; [congruence|]. intros _.
    unfold merge_lines.
    destruct (fold_left merge_step rest ([], l)) as [m c].
    destruct m; discriminate.
Qed.

(** ** Regular expressions *)

Lemma reaches_refl (st : pos) : reaches st st.
Proof. exists []. split; [reflexivity | simpl; lia]. Qed.

Lemma reaches_trans (a b c : pos) : reaches a b -> reaches b c -> reaches a c.
Proof.
  intros [w1 [H1 L1]] [w2 [H2 L2]]. exists (w1 ++ w2). split.
  - now rewrite H1, H2, app_assoc.
  - rewrite length_app. lia.
Qed.

Lemma reaches_length (a b : pos) :
  reaches a b -> (length (snd b) <= length (snd a))%nat.
Proof. intros [w [H _]]. rewrite H, length_app. lia. Qed.

(** A step that consumes nothing stays where it is. *)
Lemma reaches_same_length (a b : pos) :
  reaches a b -> length (snd b) = length (snd a) -> b = a.
Proof.
  intros [w [H L]] E. rewrite H, length_app in E.
  destruct w as [|x w]; [|simpl in E; lia].
  destruct a, b; simpl in *. subst. f_equal. lia.
Qed.

Lemma in_iter_inv (f : pos -> list pos) (n : nat) (st st' : pos) :
  In st' (iter f n st) ->
  st' = st \/
  exists n' st1, n = S n' /\ In st1 (f st) /\
                 (length (snd st1) < length (snd st))%nat /\
                 In st' (iter f n' st1).
Proof.
  destruct n as [|n]; simpl.
  - intros [H | []]. now left.
  - intros [H | H]; [now left | right].
    apply in_flat_map in H as [st1 [H1 H2]].
    apply filter_In in H1 as [H1 Hlt]. apply Nat.ltb_lt in Hlt.
    now exists n, st1.
Qed.

Lemma in_iter_here (f : pos -> list pos) (n : nat) (st : pos) : In st (iter f n st).
Proof. destruct n; simpl; now left. Qed.

Lemma in_iter_step (f : pos -> list pos) (n : nat) (st st1 st' : pos) :
  In st1 (f st) -> (length (snd st1) < length (snd st))%nat ->
  In st' (iter f n st1) -> In st' (iter f (S n) st).
Proof.
  intros H1 Hlt H2. simpl. right. apply in_flat_map. exists st1. split; [|exact H2].
  apply filter_In. split; [exact H1 | now apply Nat.ltb_lt].
Qed.

(** More fuel than the text is long changes nothing. *)
Lemma iter_fuel (f : pos -> list pos) (n m : nat) (st st' : pos) :
  (length (snd st) <= n)%nat -> (length (snd st) <= m)%nat ->
  In st' (iter f n st) -> In st' (iter f m st).
Proof.
  revert m st; induction n as [|n IH]; intros m st Hn Hm H.
  - apply in_iter_inv in H as [-> | (n' & _ & E & _)]; [apply in_iter_here | discriminate].
  - apply in_iter_inv in H as [-> | (n' & st1 & E & H1 & Hlt & H2)]; [apply in_iter_here|].
    injection E as <-. destruct m as [|m]; [lia|].
    apply in_iter_step with st1; auto. apply IH; auto; lia.
Qed.

Lemma iter_reaches (f : pos -> list pos) :
  (forall st st', In st' (f st) -> reaches st st') ->
  forall n st st', In st' (iter f n st) -> reaches st st'.
Proof.
  intros Hf. induction n as [|n IH]; intros st st' H;
    apply in_iter_inv in H as [-> | (n' & st1 & E & H1 & Hlt & H2)];
    try apply reaches_refl; [discriminate|].
  injection E as <-. apply reaches_trans with st1; auto.
Qed.

Lemma run_reaches (r : regex) : forall st st', In st' (run r st) -> reaches st st'.
Proof.
  induction r as [| | |p|a IHa b IHb|a IHa b IHb|a IHa|a IHa]; intros st st' H; simpl in H.
  - destruct H as [<- | []]. apply reaches_refl.
  - destruct (fst st); [|contradiction]. destruct H as [<- | []]. apply reaches_refl.
  - destruct (at_end (snd st)); [|contradiction].
    destruct H as [<- | []]. apply reaches_refl.
  - destruct st as [n s]; simpl in *. destruct s as [|c t]; [contradiction|].
    destruct (p c); [|contradiction]. destruct H as [<- | []].
    exists [c]. split; [reflexivity | simpl; lia].
  - apply in_flat_map in H as [st1 [H1 H2]]. apply reaches_trans with st1; auto.
  - apply in_app_or in H as [H | H]; auto.
  - eapply iter_reaches; eauto.
  - apply in_flat_map in H as [st1 [H1 H2]]. apply reaches_trans with st1; auto.
    eapply iter_reaches; eauto.
Qed.

(** A match that ends somewhere else has consumed a first code point, and
    the pattern allows it there. *)
Lemma run_first (r : regex) : forall st st',
  In st' (run r st) ->
  (st' = st /\ nullable r = true) \/
  (exists c t, snd st = c :: t /\ first r c = true).
Proof.
  induction r as [| | |p|a IHa b IHb|a IHa b IHb|a IHa|a IHa]; intros st st' H; simpl in H.
  - destruct H as [<- | []]. now left.
  - destruct (fst st); [|contradiction]. destruct H as [<- | []]. now left.
  - destruct (at_end (snd st)); [|contradiction].
    destruct H as [<- | []]. now left.
  - right. destruct st as [n s]; simpl in *. destruct s as [|c t]; [contradiction|].
    destruct (p c) eqn:E; [|contradiction]. now exists c, t.
  - apply in_flat_map in H as [st1 [H1 H2]].
    destruct (IHa _ _ H1) as [[-> Na] | (c & t & E & F)].
    + destruct (IHb _ _ H2) as [[-> Nb] | (c & t & E & F)].
      * left. simpl. now rewrite Na, Nb.
      * right. exists c, t. simpl. rewrite Na, F. split; [assumption | apply orb_true_r].
    + right. exists c, t. simpl. now rewrite F.
  - apply in_app_or in H as [H | H].
    + destruct (IHa _ _ H) as [[-> N] | (c & t & E & F)].
      * left. simpl. now rewrite N.
      * right. exists c, t. simpl. now rewrite F.
    + destruct (IHb _ _ H) as [[-> N] | (c & t & E & F)].
      * left. simpl. rewrite N. split; [reflexivity | apply orb_true_r].
      * right. exists c, t. simpl. rewrite F. split; [assumption | apply orb_true_r].
  - apply in_iter_inv in H as [-> | (n' & st1 & E & H1 & Hlt & H2)]; [now left|].
    destruct (IHa _ _ H1) as [[-> N] | (c & t & E' & F)]; [lia|].
    right. now exists c, t.
  - apply in_flat_map in H as [st1 [H1 H2]].
    destruct (IHa _ _ H1) as [[-> N] | (c & t & E & F)]; [|right; now exists c, t].
    apply in_iter_inv in H2 as [-> | (n' & st2 & E & H3 & Hlt & H4)]; [now left|].
    destruct (IHa _ _ H3) as [[-> N'] | (c & t & E' & F)]; [lia|].
    right. now exists c, t.
Qed.

Lemma re_match_true (r : regex) (s : str) :
  re_match r s = true <-> exists st, In st (run r (O, s)).
Proof.
  unfold re_match. destruct (run r (O, s)) as [|st l]; simpl; split.
  - discriminate.
  - intros [st []].
  - intros _. exists st. now left.
  - reflexivity.
Qed.

(** A pattern that must consume something does not match a text whose
    first code point it cannot begin with. *)
Lemma re_match_first (r : regex) (c : Z) (t : str) :
  nullable r = false -> first r c = false -> re_match r (c :: t) = false.
Proof.
  intros N F. destruct (re_match r (c :: t)) eqn:E; [|reflexivity].
  apply re_match_true in E as [st H].
  apply run_first in H as [[_ N'] | (c' & t' & E & F')].
  - congruence.
  - simpl in E. injection E as <- <-. congruence.
Qed.

Lemma re_match_nil (r : regex) : nullable r = false -> re_match r [] = false.
Proof.
  intros N. destruct (re_match r []) eqn:E; [|reflexivity].
  apply re_match_true in E as [st H].
  apply run_first in H as [[_ N'] | (c' & t' & E & F')]; [congruence | discriminate].
Qed.

Lemma iter_le (f g : pos -> list pos) :
  (forall st st', In st' (f st) -> In st' (g st)) ->
  forall n st st', In st' (iter f n st) -> In st' (iter g n st).
Proof.
  intros Hfg. induction n as [|n IH]; intros st st' H;
    apply in_iter_inv in H as [-> | (n' & st1 & E & H1 & Hlt & H2)];
    try apply in_iter_here; [discriminate|].
  injection E as <-. apply in_iter_step with st1; auto.
Qed.

(** Widening a pattern keeps every match. *)
Lemma le_run (r r' : regex) :
  le r r' -> forall st st', In st' (run r st) -> In st' (run r' st).
Proof.
  induction 1 as [r|p q Hpq|a a' b b' _ IHa _ IHb|a a' b b' _ IHa _ IHb
                 |a a' _ IHa|a a' _ IHa|a a' Hle IHa]; intros st st' H; simpl in *.
  - exact H.
  - destruct (snd st) as [|c t]; [contradiction|].
    destruct (p c) eqn:E; [|contradiction]. now rewrite (Hpq _ E).
  - apply in_flat_map in H as [st1 [H1 H2]]. apply in_flat_map. exists st1. auto.
  - apply in_or_app. apply in_app_or in H as [H | H]; auto.
  - eapply iter_le; eauto.
  - apply in_flat_map in H as [st1 [H1 H2]]. apply in_flat_map. exists st1.
    split; [auto | eapply iter_le; eauto].
  - apply in_flat_map in H as [st1 [H1 H2]].
    pose proof (run_reaches _ _ _ H1) as R.
    pose proof (reaches_length _ _ R) as L.
    apply (iter_le _ _ IHa) in H2.
    destruct (Nat.eq_dec (length (snd st1)) (length (snd st))) as [E | NE].
    + rewrite (reaches_same_length _ _ R E) in H2. exact H2.
    + destruct (length (snd st)) as [|k] eqn:Ek; [lia|].
      apply in_iter_step with st1; [auto | lia |].
      apply iter_fuel with (n := length (snd st1)); auto; lia.
Qed.

Lemma le_match (r r' : regex) (s : str) :
  le r r' -> re_match r s = true -> re_match r' s = true.
Proof.
  intros L H. apply re_match_true in H as [st H]. apply re_match_true.
  exists st. eapply le_run; eauto.
Qed.

Lemma in_run_cat (a b : regex) (st st1 st2 : pos) :
  In st1 (run a st) -> In st2 (run b st1) -> In st2 (run (Cat a b) st).
Proof. intros H1 H2. simpl. apply in_flat_map. now exists st1. Qed.

Lemma in_run_bos (s : str) : In (O, s) (run Bos (O, s)).
Proof. simpl. now left. Qed.

Lemma in_run_lits (cs : str) : forall (n : nat) (t : str),
  In ((n + length cs)%nat, t) (run (lits cs) (n, cs ++ t)).
Proof.
  induction cs as [|c cs IH]; intros n t.
  - simpl. left. f_equal. lia.
  - change (lits (c :: cs)) with (Cat (Cls (Z.eqb c)) (lits cs)).
    apply in_run_cat with (S n, cs ++ t).
    + simpl. rewrite Z.eqb_refl. now left.
    + replace (n + length (c :: cs))%nat with (S n + length cs)%nat by (simpl; lia).
      apply IH.
Qed.

Lemma in_run_star_cls (p : Z -> bool) (w : str) : forall (n : nat) (t : str),
  forallb p w = true ->
  In ((n + length w)%nat, t) (run (Star (Cls p)) (n, w ++ t)).
Proof.
  induction w as [|c w IH]; intros n t Hp.
  - simpl run. replace (n + length (@nil Z))%nat with n by (simpl; lia).
    apply in_iter_here.
  - simpl in Hp. apply andb_true_iff in Hp as [Hc Hw].
    change (run (Star (Cls p)) (n, (c :: w) ++ t))
      with (iter (run (Cls p)) (S (length (w ++ t))) (n, c :: w ++ t)).
    apply in_iter_step with (S n, w ++ t).
    + simpl. rewrite Hc. now left.
    + simpl. lia.
    + replace (n + length (c :: w))%nat with (S n + length w)%nat by (simpl; lia).
      apply (IH (S n) t Hw).
Qed.

Lemma in_run_plus_cls (p : Z -> bool) (w : str) (n : nat) (t : str) :
  w <> [] -> forallb p w = true ->
  In ((n + length w)%nat, t) (run (Plus (Cls p)) (n, w ++ t)).
Proof.
  intros Hne Hp. destruct w as [|c w]; [congruence|].
  simpl in Hp. apply andb_true_iff in Hp as [Hc Hw].
  simpl run. rewrite Hc. simpl. rewrite app_nil_r.
  replace (n + S (length w))%nat with (S n + length w)%nat by lia.
  apply (in_run_star_cls p w (S n) t Hw).
Qed.

(** ** Trimming and lower-casing *)

Lemma lstrip_spaces (ws s : str) :
  forallb isspace ws = true -> lstrip (ws ++ s) = lstrip s.
Proof.
  induction ws as [|c ws IH]; simpl; [reflexivity|].
  intros H. apply andb_true_iff in H as [Hc Hw]. rewrite Hc. auto.
Qed.

Lemma lstrip_all_spaces (ws : str) : forallb isspace ws = true -> lstrip ws = [].
Proof.
  intros H. rewrite <- (app_nil_r ws). now rewrite lstrip_spaces.
Qed.

Lemma lstrip_cons (c : Z) (s : str) : isspace c = false -> lstrip (c :: s) = c :: s.
Proof. intros H. simpl. now rewrite H. Qed.

Lemma lstrip_snoc (s : str) (c : Z) :
  isspace c = false -> lstrip (s ++ [c]) = lstrip s ++ [c].
Proof.
  intros H. induction s as [|d s IH]; simpl.
  - now rewrite H.
  - destruct (isspace d); [exact IH | reflexivity].
Qed.

Lemma lstrip_idem (s : str) : lstrip (lstrip s) = lstrip s.
Proof.
  induction s as [|c s IH]; simpl; [reflexivity|].
  destruct (isspace c) eqn:E; [exact IH | simpl; now rewrite E].
Qed.

Lemma forallb_rev {A : Type} (f : A -> bool) (l : list A) :
  forallb f (rev l) = forallb f l.
Proof.
  induction l as [|x l IH]; simpl; [reflexivity|].
  rewrite forallb_app, IH. simpl. rewrite andb_true_r. apply andb_comm.
Qed.

Lemma rstrip_spaces (s ws : str) :
  forallb isspace ws = true -> rstrip (s ++ ws) = rstrip s.
Proof.
  intros H. unfold rstrip. rewrite rev_app_distr, lstrip_spaces; [reflexivity|].
  now rewrite forallb_rev.
Qed.

Lemma rstrip_snoc (s : str) (c : Z) : isspace c = false -> rstrip (s ++ [c]) = s ++ [c].
Proof.
  intros H. unfold rstrip. rewrite rev_app_distr. simpl. rewrite H. simpl.
  now rewrite rev_involutive.
Qed.

(** A text whose first and last code points are not white space, with
    white space around it, trims to itself. *)
Lemma strip_surrounded (ws1 ds ws2 : str) :
  ds <> [] -> forallb (fun c => negb (isspace c)) ds = true ->
  forallb isspace ws1 = true -> forallb isspace ws2 = true ->
  strip (ws1 ++ ds ++ ws2) = ds.
Proof.
  intros Hne Hd H1 H2. unfold strip. rewrite lstrip_spaces by assumption.
  destruct ds as [|d ds]; [congruence|].
  pose proof Hd as Hd'. simpl in Hd'. apply andb_true_iff in Hd' as [Hd0 _].
  apply negb_true_iff in Hd0.
  change ((d :: ds) ++ ws2) with (d :: (ds ++ ws2)). rewrite lstrip_cons by assumption.
  change (d :: (ds ++ ws2)) with ((d :: ds) ++ ws2). rewrite rstrip_spaces by assumption.
  destruct (@exists_last _ _ Hne) as [l [e E]]. rewrite E in *.
  rewrite forallb_app in Hd. apply andb_true_iff in Hd as [_ He]. simpl in He.
  rewrite andb_true_r in He. apply negb_true_iff in He.
  now apply rstrip_snoc.
Qed.

Lemma strip_all_spaces (ws : str) : forallb isspace ws = true -> strip ws = [].
Proof. intros H. unfold strip. now rewrite lstrip_all_spaces. Qed.

(** Trimming keeps a first code point that is not white space. *)
Lemma strip_cons (c : Z) (s : str) :
  isspace c = false -> exists z, strip (c :: s) = c :: z.
Proof.
  intros H. unfold strip, rstrip. rewrite lstrip_cons by assumption.
  simpl rev. rewrite lstrip_snoc by assumption. rewrite rev_app_distr. simpl.
  now eexists.
Qed.

Lemma lstrip_strip (s : str) : lstrip (strip s) = strip s.
Proof.
  unfold strip. destruct (lstrip s) as [|c a] eqn:E; [reflexivity|].
  assert (Hc : isspace c = false).
  { pose proof (lstrip_idem s) as I. rewrite E in I. simpl in I.
    destruct (isspace c) eqn:Ec; [|reflexivity].
    exfalso. assert (L : length (lstrip a) = length (c :: a)) by now rewrite I.
    clear - L. assert (G : forall l, (length (lstrip l) <= length l)%nat).
    { induction l as [|x l IH]; simpl; [lia|]. destruct (isspace x); simpl; lia. }
    specialize (G a). simpl in L. lia. }
  unfold rstrip. simpl rev. rewrite lstrip_snoc by assumption.
  rewrite rev_app_distr. simpl. now rewrite Hc.
Qed.

(** [strip] is idempotent: what the pass has trimmed stays as it is. *)
Lemma strip_idem (s : str) : strip (strip s) = strip s.
Proof.
  unfold strip at 1. rewrite lstrip_strip.
  unfold strip at 1, rstrip at 1.
  unfold rstrip. rewrite rev_involutive, lstrip_idem. reflexivity.
Qed.

Section BuiltinFacts.

Context {U : UnicodeTables}.

(** Lower-casing leaves a first code point that is ASCII without a
    capital, or an ideograph, in place. *)
Lemma lower_cons (c : Z) (s : str) :
  caseless_or_ascii c = true -> ascii_upper c = false ->
  lower (c :: s) = c :: lower_from [c] s.
Proof.
  intros H1 H2. unfold lower. simpl. unfold lower_cp, ascii_tolower.
  now rewrite H1, H2.
Qed.

Lemma text_lower_cons (c : Z) (s : str) :
  caseless_or_ascii c = true -> ascii_upper c = false -> isspace c = false ->
  exists z, strip (lower (c :: s)) = c :: z.
Proof.
  intros H1 H2 H3. rewrite lower_cons by assumption. now apply strip_cons.
Qed.

End BuiltinFacts.

(** ** The classifier *)

Lemma ascii_digit_cases (d : Z) :
  ascii_digit d = true -> In d [48; 49; 50; 51; 52; 53; 54; 55; 56; 57].
Proof.
  unfold ascii_digit. intros H. apply andb_true_iff in H as [H1 H2].
  apply Z.leb_le in H1, H2. simpl.
  assert (d = 48 \/ d = 49 \/ d = 50 \/ d = 51 \/ d = 52 \/ d = 53 \/ d = 54 \/
          d = 55 \/ d = 56 \/ d = 57) by lia.
  intuition.
Qed.

(** A test that fails on each of [0]..[9] fails on every digit. *)
Lemma on_digits (P : Z -> bool) (d : Z) :
  forallb (fun c => negb (P c)) [48; 49; 50; 51; 52; 53; 54; 55; 56; 57] = true ->
  ascii_digit d = true -> P d = false.
Proof.
  intros H Hd. apply ascii_digit_cases in Hd.
  rewrite forallb_forall in H. specialize (H d Hd). now apply negb_true_iff in H.
Qed.

Lemma dotted_cons (i j : str) (more : list str) :
  dotted (i :: j :: more) = i ++ u "." ++ dotted (j :: more).
Proof. reflexivity. Qed.

Lemma dotted_class (ints : list str) :
  Forall integer ints ->
  forallb (fun c => ascii_digit c || one_of "." c) (dotted ints) = true.
Proof.
  induction 1 as [|i rest [_ Hi] _ IH]; [reflexivity|].
  assert (Hi' : forallb (fun c => ascii_digit c || one_of "." c) i = true).
  { rewrite forallb_forall in *. intros c Hc. now rewrite (Hi c Hc). }
  destruct rest as [|j more]; [exact Hi'|].
  rewrite dotted_cons, !forallb_app, Hi', IH. reflexivity.
Qed.

Lemma dotted_nonempty (i : str) (rest : list str) :
  integer i -> dotted (i :: rest) <> [].
Proof.
  intros [Hne _]. destruct rest; simpl; [assumption|].
  destruct i; [congruence | discriminate].
Qed.

Section Classifier.

Context {U : UnicodeTables}.

(** C2: the four example inputs of the specification are classified as
    it says: a bare chapter marker, a numbered section, the references
    marker and plain content, each with its text unchanged. *)
Theorem identify_structure_examples :
  identify_structure (u "第五章") = (chapter, u "第五章") /\
  identify_structure (u "1.2 Overview") = (section, u "1.2 Overview") /\
  identify_structure (u "参考文献") = (references, u "参考文献") /\
  identify_structure (u "Hello world") = (content, u "Hello world").
Proof. repeat split; vm_compute; reflexivity. Qed.

Lemma toc_not_digit (d : Z) (z : str) :
  ascii_digit d = true -> re_match re_toc (d :: z) = false.
Proof.
  intros H. apply re_match_first; [reflexivity|].
  revert H. apply on_digits. vm_compute. reflexivity.
Qed.

Lemma preface_not_digit (d : Z) (z : str) :
  ascii_digit d = true -> re_match re_preface (d :: z) = false.
Proof.
  intros H. apply re_match_first; [reflexivity|].
  revert H. apply on_digits. vm_compute. reflexivity.
Qed.

Lemma chapter_bare_not_digit (d : Z) (z : str) :
  ascii_digit d = true -> re_match re_chapter_bare (d :: z) = false.
Proof.
  intros H. apply re_match_first; [reflexivity|].
  revert H. apply on_digits. vm_compute. reflexivity.
Qed.

Lemma chapter_title_not_digit (d : Z) (z : str) :
  ascii_digit d = true -> re_match re_chapter_title (d :: z) = false.
Proof.
  intros H. apply re_match_first; [reflexivity|].
  revert H. apply on_digits. vm_compute. reflexivity.
Qed.

(** The numbered-section pattern matches two or more dot-separated
    integers followed by a separator, whatever comes after. *)
Lemma numbered_matches (line : str) :
  numbered_line 2 line -> re_match re_numbered line = true.
Proof.
  intros (ints & seps & title & Hk & Hints & Hne & Hsep & ->).
  destruct ints as [|i [|j more]]; simpl in Hk; try lia.
  inversion Hints as [|? ? Hi Hrest]; subst.
  inversion Hrest as [|? ? Hj _]; subst.
  rewrite dotted_cons, <- !app_assoc.
  apply re_match_true. eexists. unfold re_numbered.
  eapply in_run_cat; [apply in_run_bos|].
  eapply in_run_cat.
  { eapply in_run_cat; [apply in_run_plus_cls; apply Hi|].
    eapply in_run_cat; [apply (in_run_lits (u "."))|].
    apply in_run_plus_cls.
    - now apply dotted_nonempty.
    - now apply dotted_class. }
  eapply in_run_cat; [apply in_run_plus_cls; assumption|].
  exact (in_run_star_cls dot [] _ title eq_refl).
Qed.

(** C3, as the code has it: a line of two or more dot-separated
    integers, a separator (white space, or a half-width or full-width
    full stop) and a title is a section; no earlier rule can match such
    a line. *)
Theorem numbered_line_is_section (line : str) :
  numbered_line 2 line -> identify_structure line = (section, line).
Proof.
  intros H. pose proof (numbered_matches _ H) as Hm.
  destruct H as (ints & seps & title & Hk & Hints & Hne & Hsep & E).
  destruct ints as [|i [|j more]]; simpl in Hk; try lia.
  pose proof (Forall_inv Hints) as [Hi Hd].
  destruct i as [|d i]; [congruence|].
  simpl in Hd. apply andb_true_iff in Hd as [Hd _].
  assert (Hline : exists rest, line = d :: rest).
  { rewrite E, dotted_cons. simpl. now eexists. }
  destruct Hline as [rest Hline].
  assert (Hlow : exists z, strip (lower line) = d :: z).
  { rewrite Hline. apply ascii_digit_cases in Hd. simpl in Hd.
    apply text_lower_cons; intuition (subst; reflexivity). }
  destruct Hlow as [z Hlow].
  unfold identify_structure. rewrite Hlow.
  rewrite (toc_not_digit d z Hd), (preface_not_digit d z Hd).
  rewrite Hline at 1. rewrite (chapter_bare_not_digit d rest Hd).
  rewrite Hline at 1. rewrite (chapter_title_not_digit d rest Hd).
  rewrite Hm. reflexivity.
Qed.

(** A single integer and a full stop are no section number. *)
Lemma single_integer_is_content :
  identify_structure (u "1. Overview") = (content, u "1. Overview").
Proof. vm_compute. reflexivity. Qed.

End Classifier.

(** C3, as stated, fails: [1. Overview] is one integer, a separator and a
    title, and it is classified as content. *)
Lemma numbered_single_integer_counterexample :
  numbered_line 1 (u "1. Overview") /\
  @identify_structure plain_tables (u "1. Overview") = (content, u "1. Overview").
Proof.
  split; [|apply single_integer_is_content].
  exists [u "1"], (u ". "), (u "Overview").
  split; [simpl; lia|]. split; [repeat constructor; discriminate|].
  split; [discriminate|]. split; reflexivity.
Qed.

(** A line the amended C3 covers: three integers, an ideographic space
    as the separator, a title. *)
Lemma numbered_line_is_section_witness :
  numbered_line 2 (u "2.3.4　Details") /\
  @identify_structure plain_tables (u "2.3.4　Details") = (section, u "2.3.4　Details").
Proof.
  assert (H : numbered_line 2 (u "2.3.4　Details")).
  { exists [u "2"; u "3"; u "4"], (u "　"), (u "Details").
    split; [simpl; lia|]. split; [repeat constructor; discriminate|].
    split; [discriminate|]. split; reflexivity. }
  split; [exact H | exact (@numbered_line_is_section plain_tables _ H)].
Defined.

Section Headings.

Context {U : UnicodeTables}.

(** The three patterns of [is_section_title] begin with the ordinal
    marker. *)
Lemma section_title_first (r : regex) (x : str) :
  r = re_chapter_bare \/ r = re_chapter_space \/ r = re_section_space ->
  re_match r x = true -> exists t, x = 31532 :: t.
Proof.
  intros Hr H. apply re_match_true in H as [st H].
  apply run_first in H as [[_ N] | (c & t & E & F)].
  - exfalso. destruct Hr as [-> | [-> | ->]]; discriminate N.
  - simpl in E. subst x. exists t. f_equal.
    assert (G : (31532 =? c) = true).
    { destruct Hr as [-> | [-> | ->]]; revert F; cbv - [Z.eqb];
        destruct (31532 =? c); intros F; (reflexivity || discriminate F). }
    apply Z.eqb_eq in G. now symmetry.
Qed.

Lemma chapter_space_le : le re_chapter_space re_chapter_title.
Proof.
  unfold re_chapter_space, re_chapter_title.
  repeat (apply le_cat; [apply le_refl|]).
  apply le_plus, le_cls. intros c. cbv - [Z.eqb].
  destruct (c =? 32); [reflexivity | discriminate].
Qed.

Lemma section_space_le : le re_section_space re_section_cn.
Proof.
  unfold re_section_space, re_section_cn.
  repeat (apply le_cat; [apply le_refl|]).
  apply le_plus_star, le_cls. intros c. cbv - [Z.eqb].
  destruct (c =? 32) eqn:E; [|discriminate].
  apply Z.eqb_eq in E. subst c. reflexivity.
Qed.

(** On a trimmed line, what [is_section_title] accepts the classifier
    labels a chapter or a section. *)
Lemma is_section_title_label (x : str) :
  strip x = x -> is_section_title x = true ->
  fst (identify_structure x) = chapter \/ fst (identify_structure x) = section.
Proof.
  intros Hx H. unfold is_section_title in H. rewrite Hx in H.
  destruct (is_empty x || is_empty x); [discriminate|].
  assert (Hfirst : exists t, x = 31532 :: t).
  { destruct (re_match re_chapter_bare x) eqn:E1;
      [apply (section_title_first re_chapter_bare); auto|].
    destruct (re_match re_chapter_space x) eqn:E2;
      [apply (section_title_first re_chapter_space); auto|].
    destruct (re_match re_section_space x) eqn:E3;
      [apply (section_title_first re_section_space); auto | discriminate]. }
  destruct Hfirst as [t Hfirst].
  destruct (text_lower_cons 31532 t eq_refl eq_refl eq_refl) as [z Hz].
  assert (E : strip (lower x) = 31532 :: z) by (rewrite Hfirst; exact Hz).
  unfold identify_structure. rewrite E.
  rewrite (re_match_first re_toc 31532 z eq_refl eq_refl).
  rewrite (re_match_first re_preface 31532 z eq_refl eq_refl).
  destruct (re_match re_chapter_bare x) eqn:E1; [now left|].
  destruct (re_match re_chapter_space x) eqn:E2.
  { rewrite (le_match _ _ _ chapter_space_le E2). now left. }
  destruct (re_match re_section_space x) eqn:E3; [|discriminate].
  rewrite (le_match _ _ _ section_space_le E3).
  destruct (re_match re_chapter_title x); [now left|].
  destruct (re_match re_numbered x); now right.
Qed.

Lemma heading_label_iff (l : label) :
  label_in l heading_labels = true <-> ~ In l plain_labels.
Proof.
  unfold plain_labels. destruct l; simpl; split; try reflexivity; try discriminate;
    intros H; try (exfalso; apply H; tauto);
    intros [E | [E | [E | []]]]; discriminate.
Qed.

Lemma is_title_iff_label (line : str) :
  strip line = line ->
  (is_title line = true <-> label_in (fst (identify_structure line)) heading_labels = true).
Proof.
  intros Hx. unfold is_title. split.
  - intros H. apply orb_true_iff in H as [H | H]; [|exact H].
    destruct (is_section_title_label line Hx H) as [-> | ->]; reflexivity.
  - intros H. rewrite H. apply orb_true_r.
Qed.

(** C6, as the code has it: on a line without leading or trailing white
    space, as the structuring pass passes every line, the heading test
    holds exactly when the classifier's label is none of content,
    toc_header and toc_item. *)
Theorem heading_test_agrees_with_classifier (line : str) :
  strip line = line ->
  (is_title line = true <->
   ~ In (fst (identify_structure line)) plain_labels).
Proof.
  intros Hx. rewrite <- heading_label_iff. now apply is_title_iff_label.
Qed.

(** A marker after a leading space is a heading for [is_section_title]
    and content for the classifier, whatever the tables hold. *)
Lemma leading_space_disagrees :
  is_title (u " 第五章") = true /\
  fst (identify_structure (u " 第五章")) = content.
Proof. split; vm_compute; reflexivity. Qed.

(** The structuring pass only tests trimmed lines. *)
Lemma is_title_trimmed (line : str) :
  is_title (strip line) = true <->
  label_in (fst (identify_structure (strip line))) heading_labels = true.
Proof. apply is_title_iff_label, strip_idem. Qed.

End Headings.

(** C6, as stated, fails: a chapter marker after a leading space passes
    the heading test, and the classifier labels it content. *)
Lemma heading_test_counterexample :
  @is_title plain_tables (u " 第五章") = true /\
  In (fst (@identify_structure plain_tables (u " 第五章"))) plain_labels.
Proof.
  destruct (@leading_space_disagrees plain_tables) as [H1 H2].
  split; [exact H1 | rewrite H2; now left].
Qed.

(** A trimmed chapter heading, on which both sides of the amended C6 hold. *)
Lemma heading_test_agrees_witness :
  strip (u "第一章 引言") = u "第一章 引言" /\
  (@is_title plain_tables (u "第一章 引言") = true <->
   ~ In (fst (@identify_structure plain_tables (u "第一章 引言"))) plain_labels).
Proof.
  split; [reflexivity|].
  apply (@heading_test_agrees_with_classifier plain_tables). reflexivity.
Defined.

(** ** The line filter *)

Lemma contains_first (s : str) (c : Z) (k : str) :
  contains s (c :: k) = true -> In c s.
Proof.
  induction s as [|x s IH]; simpl.
  - discriminate.
  - intros H. apply orb_true_iff in H as [H | H].
    + apply andb_true_iff in H as [H _]. apply Z.eqb_eq in H. now left.
    + right. exact (IH H).
Qed.

Section Filter.

Context {U : UnicodeTables}.

Lemma keyword_not_in_spaces (ws kw : str) :
  forallb isspace ws = true -> In kw common_header_footer ->
  contains ws kw = false.
Proof.
  intros Hws Hkw. destruct (contains ws kw) eqn:E; [|reflexivity].
  rewrite forallb_forall in Hws.
  destruct Hkw as [<- | [<- | []]];
    apply contains_first in E; apply Hws in E; discriminate E.
Qed.

Lemma is_header_footer_spaces (ws : str) :
  ws <> [] -> forallb isspace ws = true -> is_header_footer ws = false.
Proof.
  intros Hne Hws. unfold is_header_footer.
  apply is_empty_false in Hne. rewrite Hne.
  rewrite (strip_all_spaces ws Hws).
  change (isdigit []) with false. cbv iota.
  rewrite (re_match_nil re_page_marker eq_refl).
  rewrite (re_match_nil re_page_cn eq_refl).
  rewrite (re_match_nil re_page_en eq_refl).
  change (str_eqb [] (u "页") || str_eqb [] (u "Page")) with false.
  cbv iota. cbn [orb].
  destruct (existsb (fun keyword => contains ws keyword) common_header_footer) eqn:E;
    [|reflexivity].
  apply existsb_exists in E as [kw [Hkw Hc]].
  now rewrite (keyword_not_in_spaces ws kw Hws Hkw) in Hc.
Qed.

Lemma isdigit_true (ds : str) :
  ds <> [] -> forallb isdigit_cp ds = true -> isdigit ds = true.
Proof.
  intros Hne H. unfold isdigit. apply is_empty_false in Hne. now rewrite Hne, H.
Qed.

(** C4, as the code has it: [is_header_footer] is true on the empty
    string and on every string of one or more digits with optional white
    space around them.  A non-empty string of white space alone is not
    noise for [is_header_footer], which answers false; the structuring
    pass drops such a line by its own test for a blank line. *)
Theorem is_header_footer_empty_and_digits :
  is_header_footer [] = true /\
  (forall ws1 ds ws2 : str,
      ds <> [] ->
      forallb isdigit_cp ds = true ->
      forallb (fun c => negb (isspace c)) ds = true ->
      forallb isspace ws1 = true -> forallb isspace ws2 = true ->
      is_header_footer (ws1 ++ ds ++ ws2) = true) /\
  (forall ws : str,
      ws <> [] -> forallb isspace ws = true ->
      is_header_footer ws = false /\ kept ws = false).
Proof.
  split; [reflexivity | split].
  - intros ws1 ds ws2 Hne Hd Hns H1 H2. unfold is_header_footer.
    rewrite (strip_surrounded ws1 ds ws2 Hne Hns H1 H2).
    rewrite (isdigit_true ds Hne Hd).
    destruct (is_empty (ws1 ++ ds ++ ws2)); reflexivity.
  - intros ws Hne Hws. split; [now apply is_header_footer_spaces|].
    unfold kept. now rewrite (strip_all_spaces ws Hws).
Qed.

(** The digits [0]..[9] are digits for [str.isdigit], and no white space. *)
Lemma ascii_digits_are_digits (ds : str) :
  forallb ascii_digit ds = true ->
  forallb isdigit_cp ds = true /\ forallb (fun c => negb (isspace c)) ds = true.
Proof.
  intros H. rewrite !forallb_forall in *. split; intros c Hc;
    specialize (H c Hc); apply ascii_digit_cases in H; simpl in H;
    intuition (subst; reflexivity).
Qed.

End Filter.

(** C4, as stated, fails: a single space is not the empty string, and
    [is_header_footer] answers false on it. *)
Lemma is_header_footer_space_counterexample :
  forallb isspace (u " ") = true /\
  @is_header_footer plain_tables (u " ") = false.
Proof. split; reflexivity. Qed.

(** A page number with white space around it, and a line of two spaces. *)
Lemma is_header_footer_witness :
  @is_header_footer plain_tables (u "  42 ") = true /\
  (@is_header_footer plain_tables (u "  ") = false /\
   @kept plain_tables (u "  ") = false).
Proof.
  destruct (@is_header_footer_empty_and_digits plain_tables) as (_ & Hd & Hs).
  split.
  - apply (Hd (u "  ") (u "42") (u " ")); (discriminate || reflexivity).
  - apply Hs; (discriminate || reflexivity).
Defined.

(** ** The structuring pass *)

Lemma skipn_nth_error_Some {A : Type} (l : list A) : forall (i : nat) (x : A),
  nth_error l i = Some x -> skipn i l = x :: skipn (S i) l.
Proof.
  induction l as [|y l IH]; intros [|i] x H; simpl in *; try discriminate.
  - now injection H as ->.
  - now apply IH.
Qed.

Lemma skipn_nth_error_None {A : Type} (l : list A) (i : nat) :
  nth_error l i = None -> skipn i l = [].
Proof. intros H. apply skipn_all2. now apply nth_error_None. Qed.

Section Pass.

Context {U : UnicodeTables}.

(** *** The first loop *)

Lemma flush_total (st : list str * list str) :
  total (flush st) = total st /\ fst (flush st) = total st.
Proof.
  destruct st as [a c]. unfold flush, total.
  destruct c; simpl; rewrite ?app_nil_r; auto.
Qed.

Lemma flush_pending (st : list str * list str) : snd (flush st) = [].
Proof. destruct st as [a c]. unfold flush. destruct c; reflexivity. Qed.

Lemma filter_step_total (st : list str * list str) (line : str) :
  total (filter_step st line) =
  total st ++ prepared [line].
Proof.
  unfold filter_step, prepared. simpl.
  destruct (is_page_marker line); simpl.
  { rewrite app_nil_r. apply flush_total. }
  destruct (kept line); simpl; [|now rewrite app_nil_r].
  destruct (is_title (strip line)).
  - pose proof (flush_total st) as [_ H2]. pose proof (flush_pending st) as H3.
    destruct (flush st) as [a c] eqn:E. unfold total in *. simpl in *.
    subst a c. now rewrite app_nil_r.
  - unfold total. simpl. now rewrite app_assoc.
Qed.

Lemma prepared_app (l1 l2 : list str) :
  prepared (l1 ++ l2) = prepared l1 ++ prepared l2.
Proof. unfold prepared. now rewrite filter_app, map_app. Qed.

Lemma fold_filter_step_total (lines : list str) : forall st,
  total (fold_left filter_step lines st) = total st ++ prepared lines.
Proof.
  induction lines as [|l lines IH]; intros st; simpl.
  - unfold prepared. simpl. now rewrite app_nil_r.
  - rewrite IH, filter_step_total, <- app_assoc.
    f_equal. exact (eq_sym (prepared_app [l] lines)).
Qed.

(** The first loop keeps the lines that are no page markers and pass the
    filter, trimmed, in their order. *)
Lemma all_text_lines_prepared (lines : list str) :
  all_text_lines lines = prepared lines.
Proof.
  unfold all_text_lines.
  destruct (flush_total (fold_left filter_step lines ([], []))) as [_ ->].
  now rewrite fold_filter_step_total.
Qed.

(** *** The second loop *)

Lemma leading_after (ls : list str) : leading ls ++ after_leading ls = ls.
Proof.
  induction ls as [|l ls IH]; simpl; [reflexivity|].
  destruct (is_title l); simpl; [reflexivity | now rewrite IH].
Qed.

Lemma after_leading_skipn (ls : list str) :
  after_leading ls = skipn (length (leading ls)) ls.
Proof.
  induction ls as [|l ls IH]; simpl; [reflexivity|].
  destruct (is_title l); simpl; [reflexivity | exact IH].
Qed.

Lemma scan_non_title_spec (all : list str) : forall (fuel j : nat) (acc : list str),
  (length all - j <= fuel)%nat ->
  scan_non_title fuel all j acc =
  Some ((j + length (leading (skipn j all)))%nat, acc ++ leading (skipn j all)).
Proof.
  induction fuel as [|fuel IH]; intros j acc Hf.
  - simpl. rewrite (skipn_all2 all) by lia.
    assert (E : nth_error all j = None) by (apply nth_error_None; lia).
    rewrite E. simpl. now rewrite app_nil_r, Nat.add_0_r.
  - simpl. destruct (nth_error all j) as [l|] eqn:E.
    + rewrite (skipn_nth_error_Some all j l E). simpl.
      destruct (is_title l); simpl.
      * now rewrite app_nil_r, Nat.add_0_r.
      * assert (Hlen : (j < length all)%nat) by (apply nth_error_Some; congruence).
        rewrite IH by lia. rewrite <- app_assoc. simpl.
        do 2 f_equal. lia.
    + rewrite (skipn_nth_error_None all j E). simpl.
      now rewrite app_nil_r, Nat.add_0_r.
Qed.

Lemma segments_leading (ls : list str) : forall pending,
  segments ls pending =
  merge_lines (pending ++ leading ls) ++ segments (after_leading ls) [].
Proof.
  induction ls as [|l ls IH]; intros pending; simpl.
  - now rewrite !app_nil_r.
  - destruct (is_title l) eqn:E; simpl.
    + now rewrite app_nil_r, E.
    + rewrite IH, <- app_assoc. reflexivity.
Qed.

Lemma merge_loop_spec (all : list str) : forall (fuel i : nat) (acc : list str),
  (length all - i <= fuel)%nat ->
  merge_loop fuel all i acc = Some (acc ++ segments (skipn i all) []).
Proof.
  induction fuel as [|fuel IH]; intros i acc Hf.
  - simpl. rewrite (skipn_all2 all) by lia.
    assert (E : nth_error all i = None) by (apply nth_error_None; lia).
    rewrite E. simpl. now rewrite app_nil_r.
  - simpl. destruct (nth_error all i) as [line|] eqn:E.
    + assert (Hlen : (i < length all)%nat) by (apply nth_error_Some; congruence).
      rewrite (skipn_nth_error_Some all i line E). cbn [segments app].
      destruct (is_title line) eqn:Et.
      * rewrite IH by lia. now rewrite <- app_assoc.
      * rewrite scan_non_title_spec by lia.
        rewrite IH by lia. rewrite <- app_assoc. do 2 f_equal.
        rewrite (segments_leading (skipn (S i) all) [line]).
        rewrite after_leading_skipn, skipn_skipn. do 3 f_equal. lia.
    + rewrite (skipn_nth_error_None all i E). simpl. now rewrite app_nil_r.
Qed.

(** The second loop ends, with the headings alone and the runs between
    them merged. *)
Lemma processed_lines_segments (all : list str) :
  processed_lines all = Some (segments all []).
Proof. unfold processed_lines. rewrite merge_loop_spec by lia. reflexivity. Qed.

(** *** The third loop *)

Lemma structure_step_emit (acc : list record) (line : str) :
  structure_step acc line = acc ++ emit line.
Proof.
  unfold structure_step, emit.
  destruct (identify_structure line) as [l c]. simpl.
  destruct l; simpl; now rewrite ?app_nil_r.
Qed.

Lemma fold_structure_step (processed : list str) : forall acc,
  fold_left structure_step processed acc = acc ++ flat_map emit processed.
Proof.
  induction processed as [|l ls IH]; intros acc; simpl.
  - now rewrite app_nil_r.
  - now rewrite IH, structure_step_emit, <- app_assoc.
Qed.

Lemma structured_content_emit (processed : list str) :
  structured_content processed = flat_map emit processed.
Proof. unfold structured_content. now rewrite fold_structure_step. Qed.

Lemma flat_map_emit_filter (processed : list str) :
  flat_map emit processed =
  map identify_structure
    (filter (fun line =>
               negb (label_in (fst (identify_structure line)) [toc_header; toc_item]))
            processed).
Proof.
  induction processed as [|l ls IH]; [reflexivity|].
  cbn [flat_map filter]. unfold emit at 1.
  destruct (label_in (fst (identify_structure l)) [toc_header; toc_item]);
    cbn [negb map app]; now rewrite IH.
Qed.

(** The pass as a whole. *)
Lemma structuring_pass_segments (lines : list str) :
  structuring_pass lines = Some (flat_map emit (segments (prepared lines) [])).
Proof.
  unfold structuring_pass.
  now rewrite all_text_lines_prepared, processed_lines_segments, structured_content_emit.
Qed.

End Pass.

Section PassProperties.

Context {U : UnicodeTables}.

Lemma prepared_without_markers (lines : list str) :
  prepared (filter (fun line => negb (is_page_marker line)) lines) = prepared lines.
Proof.
  unfold prepared. f_equal.
  induction lines as [|l lines IH]; [reflexivity|].
  cbn [filter]. destruct (is_page_marker l) eqn:E; cbn [negb andb].
  - exact IH.
  - cbn [filter]. rewrite E. cbn [negb andb]. now rewrite IH.
Qed.

Lemma no_toc_label (l : label) :
  label_in l [toc_header; toc_item] = false <-> l <> toc_header /\ l <> toc_item.
Proof.
  destruct l; simpl; split; try discriminate; try tauto;
    try (intros _; split; discriminate).
Qed.

(** C7: the records hold no toc_header and no toc_item: the third loop
    drops every processed line with one of these labels and turns every
    other processed line into exactly one record, its classification;
    and every input reaches the third loop. *)
Theorem toc_records_discarded :
  (forall processed : list str,
      structured_content processed =
      map identify_structure
        (filter (fun line =>
                   negb (label_in (fst (identify_structure line))
                                  [toc_header; toc_item]))
                processed) /\
      Forall (fun r : record => fst r <> toc_header /\ fst r <> toc_item)
             (structured_content processed)) /\
  (forall lines : list str, exists processed,
      processed_lines (all_text_lines lines) = Some processed /\
      structuring_pass lines = Some (structured_content processed)).
Proof.
  split.
  - intros processed.
    assert (E := structured_content_emit processed).
    rewrite flat_map_emit_filter in E. split; [exact E|].
    rewrite E. apply Forall_forall. intros r Hr.
    apply in_map_iff in Hr as [line [<- Hl]].
    apply filter_In in Hl as [_ Hl]. apply negb_true_iff in Hl.
    now apply no_toc_label.
  - intros lines. exists (segments (all_text_lines lines) []).
    unfold structuring_pass. now rewrite processed_lines_segments.
Qed.

Lemma segments_app_title (x : list str) (t : str) (y : list str) :
  is_title t = true ->
  forall pending,
    segments (x ++ t :: y) pending = segments x pending ++ t :: segments y [].
Proof.
  intros Ht. induction x as [|l x IH]; intros pending; simpl.
  - now rewrite Ht.
  - destruct (is_title l).
    + now rewrite IH, <- app_assoc.
    + apply IH.
Qed.

Lemma emit_heading (h : str) :
  is_title (strip h) = true -> emit (strip h) = [identify_structure (strip h)].
Proof.
  intros H. apply is_title_trimmed in H. unfold emit.
  destruct (fst (identify_structure (strip h))); try discriminate H; reflexivity.
Qed.

Lemma prepared_heading (h : str) :
  surviving_heading h -> prepared [h] = [strip h].
Proof. intros (Hm & Hk & _). unfold prepared. simpl. now rewrite Hm, Hk. Qed.

(** A surviving heading splits the pass: the records before it, its own
    record, the records after it. *)
Lemma records_app_heading (a : list str) (h : str) (b : list str) :
  surviving_heading h ->
  flat_map emit (segments (prepared (a ++ h :: b)) []) =
  flat_map emit (segments (prepared a) []) ++
  identify_structure (strip h) :: flat_map emit (segments (prepared b) []).
Proof.
  intros H. pose proof H as (_ & _ & Ht).
  change (h :: b) with ([h] ++ b).
  rewrite !prepared_app, (prepared_heading h H).
  change ([strip h] ++ prepared b) with (strip h :: prepared b).
  rewrite (segments_app_title _ _ _ Ht), flat_map_app.
  cbn [flat_map]. now rewrite (emit_heading h Ht).
Qed.

(** C8: two heading lines that survive the filter keep their order: the
    records are those of the lines before the first heading, the record
    of the first heading, those of the lines between, the record of the
    second heading, and those of the lines after it. *)
Theorem headings_keep_their_order (pre mid post : list str) (h1 h2 : str) :
  surviving_heading h1 -> surviving_heading h2 ->
  exists o1 o2 o3,
    structuring_pass pre = Some o1 /\
    structuring_pass mid = Some o2 /\
    structuring_pass post = Some o3 /\
    structuring_pass (pre ++ h1 :: mid ++ h2 :: post) =
    Some (o1 ++ identify_structure (strip h1) ::
          o2 ++ identify_structure (strip h2) :: o3).
Proof.
  intros H1 H2.
  exists (flat_map emit (segments (prepared pre) [])),
         (flat_map emit (segments (prepared mid) [])),
         (flat_map emit (segments (prepared post) [])).
  rewrite !structuring_pass_segments.
  repeat split.
  now rewrite (records_app_heading pre h1 _ H1), (records_app_heading mid h2 _ H2).
Qed.

End PassProperties.

(** C5, as stated, fails: the two halves of a sentence on either side of
    a page marker are merged into one line. *)
Lemma page_marker_merge_counterexample :
  is_page_marker (u "--- 第 2 页 ---") = true /\
  @structuring_pass plain_tables
    [u "The quick brown fox jumps over"; u "--- 第 2 页 ---";
     u "the lazy dog and keeps running."] =
  Some [(content, u "The quick brown fox jumps over" ++
                  u "the lazy dog and keeps running.")].
Proof. split; reflexivity. Qed.

(** Two headings with a paragraph between them, a page marker before and
    a paragraph after. *)
Lemma headings_keep_their_order_witness :
  @surviving_heading plain_tables (u "第一章 引言") /\
  @surviving_heading plain_tables (u " 1.1 Overview") /\
  exists o1 o2 o3,
    @structuring_pass plain_tables [u "--- 第 1 页 ---"] = Some o1 /\
    @structuring_pass plain_tables [u "这是正文内容，描述背景。"] = Some o2 /\
    @structuring_pass plain_tables [u "More text."] = Some o3 /\
    @structuring_pass plain_tables
      ([u "--- 第 1 页 ---"] ++ u "第一章 引言" ::
       [u "这是正文内容，描述背景。"] ++ u " 1.1 Overview" :: [u "More text."]) =
    Some (o1 ++ @identify_structure plain_tables (strip (u "第一章 引言")) ::
          o2 ++ @identify_structure plain_tables (strip (u " 1.1 Overview")) :: o3).
Proof.
  assert (H1 : @surviving_heading plain_tables (u "第一章 引言"))
    by (repeat split; reflexivity).
  assert (H2 : @surviving_heading plain_tables (u " 1.1 Overview"))
    by (repeat split; reflexivity).
  split; [exact H1|]. split; [exact H2|].
  exact (@headings_keep_their_order plain_tables _ _ _ _ _ H1 H2).
Defined.

(** ** The writer *)

Lemma write_record_app (f : str) (r : record) :
  write_record f r = f ++ write_record [] r.
Proof.
  destruct r as [l c]. unfold write_record, write.
  destruct l; cbn [app]; rewrite <- ?app_assoc; reflexivity.
Qed.

Lemma fold_write_record (records : list record) : forall f,
  fold_left write_record records f = f ++ concat (map (write_record []) records).
Proof.
  induction records as [|r rs IH]; intros f; simpl.
  - now rewrite app_nil_r.
  - now rewrite IH, (write_record_app f r), <- app_assoc.
Qed.

(** C9: a preface, chapter, appendix or references record is written as a
    top-level heading followed by a rule, a section record as a
    second-level heading with no rule, a content record as a paragraph;
    the document is the blocks of its records in order followed by the
    attribution, written once at the end, also when there is no record. *)
Theorem write_markdown_blocks :
  (forall (f c : str) (l : label),
      In l [preface; chapter; appendix; references] ->
      write_record f (l, c) = f ++ heading1 c ++ rule) /\
  (forall f c : str, write_record f (section, c) = f ++ heading2 c) /\
  (forall f c : str, write_record f (content, c) = f ++ paragraph c) /\
  (forall records : list record,
      write_markdown records =
      concat (map (write_record []) records) ++ attribution) /\
  write_markdown [] = attribution.
Proof.
  split; [|split; [|split; [|split]]].
  - intros f c l [<- | [<- | [<- | [<- | []]]]];
      unfold write_record, write, heading1, rule; now rewrite <- !app_assoc.
  - reflexivity.
  - reflexivity.
  - intros records. unfold write_markdown, write, attribution.
    rewrite fold_write_record. simpl. now rewrite <- !app_assoc.
  - reflexivity.
Qed.

(** A chapter, a section and a paragraph. *)
Lemma write_markdown_blocks_witness :
  write_record [] (chapter, u "第一章 引言") = heading1 (u "第一章 引言") ++ rule /\
  write_markdown [(chapter, u "A"); (section, u "1.1 B"); (content, u "c")] =
  (heading1 (u "A") ++ rule) ++ heading2 (u "1.1 B") ++ paragraph (u "c") ++ attribution.
Proof.
  destruct write_markdown_blocks as (H1 & _ & _ & H4 & _).
  split.
  - apply (H1 [] (u "第一章 引言") chapter). simpl. tauto.
  - rewrite H4. reflexivity.
Defined.

(** ** Witnesses and examples *)

(** A line that ends a sentence is not merged with the next; two long
    halves of a sentence are. *)
Lemma should_merge_lines_rules_witness :
  should_merge_lines (u "Short.") (u "Next") = false /\
  should_merge_lines (u "This is a very long sentence that wraps")
                     (u "across two lines without punctuation") = true.
Proof.
  split.
  - destruct (should_merge_lines_rules (u "Short.") (u "Next")) as (_ & _ & _ & _ & _ & H).
    apply H; [discriminate | discriminate |].
    left. now exists (u "Short").
  - destruct (should_merge_lines_rules
                (u "This is a very long sentence that wraps")
                (u "across two lines without punctuation")) as (_ & _ & _ & _ & H & _).
    apply H; try discriminate.
    + intros E. apply ends_with_mark_iff in E. vm_compute in E. discriminate E.
    + intros E. apply starts_with_mark_iff in E. vm_compute in E. discriminate E.
    + intros [E _]. vm_compute in E. lia.
Defined.

(** Three fragments of which the last two are merged. *)
Lemma merge_lines_preserves_text_witness :
  concat (merge_lines [u "Short."; u "This is a very long sentence that wraps";
                       u "across two lines without punctuation"]) =
  u "Short.This is a very long sentence that wrapsacross two lines without punctuation" /\
  merge_lines [u "Short."; u "Next"] <> [].
Proof.
  split.
  - destruct (merge_lines_preserves_text
                [u "Short."; u "This is a very long sentence that wraps";
                 u "across two lines without punctuation"]) as (H & _ & _).
    rewrite H. vm_compute. reflexivity.
  - destruct (merge_lines_preserves_text [u "Short."; u "Next"]) as (_ & _ & H).
    apply H. discriminate.
Defined.

Example u_chapter : u "第五章" = [31532; 20116; 31456].
Proof. vm_compute. reflexivity. Qed.

Example u_marks : u "．　©" = [65294; 12288; 169].
Proof. vm_compute. reflexivity. Qed.

Example strip_example : strip (u "  a b  ") = u "a b".
Proof. vm_compute. reflexivity. Qed.

(** The merge example and non-example of the specification. *)
Example merge_example :
  merge_lines [u "This is a very long sentence that wraps";
               u "across two lines without punctuation"] =
  [u "This is a very long sentence that wraps" ++
   u "across two lines without punctuation"].
Proof. vm_compute. reflexivity. Qed.

Example merge_non_example :
  merge_lines [u "Short."; u "Next"] = [u "Short."; u "Next"].
Proof. vm_compute. reflexivity. Qed.

(** The end-to-end scenario of the specification, with the page markers
    as the source writes them. *)
Example end_to_end :
  @structuring_pass plain_tables
    [u "--- 第 1 页 ---"; u "第一章 引言"; u "这是正文内容，描述背景。";
     u "--- 第 2 页 ---"] =
  Some [(chapter, u "第一章 引言"); (content, u "这是正文内容，描述背景。")] /\
  write_markdown [(chapter, u "第一章 引言"); (content, u "这是正文内容，描述背景。")] =
  heading1 (u "第一章 引言") ++ rule ++ paragraph (u "这是正文内容，描述背景。") ++
  attribution.
Proof. split; vm_compute; reflexivity. Qed.

Example noise_examples :
  map (@is_header_footer plain_tables)
      [u ""; u " 12 "; u "--- 第 15 页 ---"; u "Page 1 of 20"; u "第 3 页";
       u "abc © d"; u "hello"; u " "] =
  [true; true; true; true; true; true; false; false].
Proof. vm_compute. reflexivity. Qed.

Example classifier_examples :
  map (fun s => fst (@identify_structure plain_tables (u s)))
      ["CONTENTS"; "目  录"; "前言"; "第三节"; "Appendix A"; "References";
       "2.3.4　Details"; "1. Overview"]%string =
  [toc_header; toc_header; preface; section; appendix; references; section; content].
Proof. vm_compute. reflexivity. Qed.

(** ** More on the line merger *)

Lemma fold_merge_step_prefix (rest : list str) : forall (merged : list str) (cur : str),
  fold_left merge_step rest (merged, cur) =
  (merged ++ fst (fold_left merge_step rest ([], cur)),
   snd (fold_left merge_step rest ([], cur))).
Proof.
  induction rest as [|l rest IH]; intros merged cur; simpl.
  - now rewrite app_nil_r.
  - destruct (should_merge_lines cur l).
    + apply IH.
    + rewrite (IH (merged ++ [cur]) l), (IH [cur] l). now rewrite <- app_assoc.
Qed.

(** [merge_lines] by recursion on the list: the first two lines are
    joined into one first line, or the first line is final. *)
Lemma merge_lines_cons_cons (x y : str) (rest : list str) :
  merge_lines (x :: y :: rest) =
  if should_merge_lines x y then merge_lines ((x ++ y) :: rest)
  else x :: merge_lines (y :: rest).
Proof.
  unfold merge_lines. simpl fold_left. destruct (should_merge_lines x y).
  - reflexivity.
  - rewrite (fold_merge_step_prefix rest [x] y).
    destruct (fold_left merge_step rest ([], y)) as [m c]. reflexivity.
Qed.

Lemma merge_lines_groups_from (rest : list str) : forall g : list str,
  g <> [] ->
  exists groups : list (list str),
    concat groups = g ++ rest /\
    Forall (fun group => group <> []) groups /\
    merge_lines (concat g :: rest) = map (@concat Z) groups.
Proof.
  induction rest as [|y rest IH]; intros g Hg.
  - exists [g]. simpl. rewrite !app_nil_r. repeat split. constructor; auto.
  - rewrite merge_lines_cons_cons. destruct (should_merge_lines (concat g) y).
    + destruct (IH (g ++ [y])) as (groups & H1 & H2 & H3).
      { destruct g; discriminate. }
      exists groups. rewrite <- app_assoc in H1. split; [exact H1|]. split; [exact H2|].
      rewrite <- H3, concat_app. simpl. now rewrite app_nil_r.
    + destruct (IH [y]) as (groups & H1 & H2 & H3); [discriminate|].
      exists (g :: groups). simpl. rewrite H1. split; [reflexivity|]. split.
      * constructor; auto.
      * f_equal. rewrite <- H3. simpl. now rewrite app_nil_r.
Qed.

Lemma length_concat_groups {A : Type} (groups : list (list A)) :
  Forall (fun group => group <> []) groups ->
  (length groups <= length (concat groups))%nat.
Proof.
  induction 1 as [|g groups Hg _ IH]; simpl; [lia|].
  rewrite length_app. destruct g; [congruence | simpl; lia].
Qed.

Lemma merge_lines_grouping (lines : list str) :
  exists groups : list (list str),
    concat groups = lines /\
    Forall (fun group => group <> []) groups /\
    merge_lines lines = map (@concat Z) groups.
Proof.
  destruct lines as [|x rest].
  - exists []. repeat split. constructor.
  - destruct (merge_lines_groups_from rest [x]) as (groups & H1 & H2 & H3);
      [discriminate|].
    exists groups. change (concat [x]) with (x ++ []) in H3.
    rewrite app_nil_r in H3. auto.
Qed.

Lemma merge_lines_length (lines : list str) :
  (length (merge_lines lines) <= length lines)%nat.
Proof.
  destruct (merge_lines_grouping lines) as (groups & H1 & H2 & H3).
  rewrite H3, length_map, <- H1. now apply length_concat_groups.
Qed.

(** X1: every line [merge_lines] returns is the concatenation of one or
    more neighbouring input lines, the groups taken in order and covering
    the input exactly; so there are never more output lines than input
    lines. *)
Theorem merge_lines_groups (lines : list str) :
  exists groups : list (list str),
    concat groups = lines /\
    Forall (fun group => group <> []) groups /\
    merge_lines lines = map (@concat Z) groups /\
    (length (merge_lines lines) <= length lines)%nat.
Proof.
  destruct (merge_lines_grouping lines) as (groups & H1 & H2 & H3).
  exists groups. repeat split; auto. apply merge_lines_length.
Qed.

(** X2: [merge_lines] returns its input unchanged exactly when no line
    and its successor pass [should_merge_lines]. *)
Theorem merge_lines_fixed_iff (lines : list str) :
  merge_lines lines = lines <->
  (forall (i : nat) (x y : str),
      nth_error lines i = Some x -> nth_error lines (S i) = Some y ->
      should_merge_lines x y = false).
Proof.
  induction lines as [|x [|y rest] IH].
  - split; [intros _ i x y H; destruct i; discriminate | reflexivity].
  - split; [|reflexivity]. intros _ [|i] a b H1 H2; simpl in *; discriminate.
  - rewrite merge_lines_cons_cons. destruct (should_merge_lines x y) eqn:E.
    + split.
      * intros H. pose proof (merge_lines_length ((x ++ y) :: rest)) as L.
        rewrite H in L. simpl in L. lia.
      * intros H. specialize (H O x y eq_refl eq_refl). congruence.
    + split.
      * intros H0. assert (H : merge_lines (y :: rest) = y :: rest) by congruence.
        pose proof (proj1 IH H) as H'. intros [|i] a b H1 H2.
        -- simpl in H1, H2. injection H1 as <-. injection H2 as <-. exact E.
        -- exact (H' i a b H1 H2).
      * intros H. f_equal. apply (proj2 IH).
        intros i a b H1 H2. exact (H (S i) a b H1 H2).
Qed.

Lemma ends_with_mark_app (x y : str) :
  y <> [] -> ends_with_mark (x ++ y) -> ends_with_mark y.
Proof.
  intros Hy (a' & m & Hm & E).
  destruct (@exists_last _ y Hy) as (y' & e & ->).
  rewrite app_assoc in E. apply app_inj_tail in E as [_ ->].
  now exists y', m.
Qed.

Lemma merge_lines_all_from (rest : list str) : forall x : str,
  (10 <= length x)%nat -> ~ ends_with_mark x ->
  Forall (fun l => (10 <= length l)%nat /\ ~ ends_with_mark l /\ ~ starts_with_mark l)
         rest ->
  merge_lines (x :: rest) = [x ++ concat rest].
Proof.
  induction rest as [|y rest IH]; intros x Hx Hex Hrest.
  - simpl. now rewrite app_nil_r.
  - inversion Hrest as [|? ? (Hy & Hey & Hsy) Hrest']; subst.
    rewrite merge_lines_cons_cons.
    assert (Hne : y <> []) by (destruct y; [simpl in Hy; lia | discriminate]).
    assert (E : should_merge_lines x y = true).
    { apply should_merge_lines_true_iff. repeat split; auto.
      - destruct x; [simpl in Hx; lia | discriminate].
      - lia. }
    rewrite E, IH; auto.
    + simpl. now rewrite app_assoc.
    + rewrite length_app. lia.
    + intros H. apply Hey. now apply ends_with_mark_app with x.
Qed.

(** X3: lines of 10 characters or more, none ending or beginning with a
    sentence-terminal mark, are all merged: the result is one line, their
    concatenation. *)
Theorem merge_lines_all (lines : list str) :
  lines <> [] ->
  Forall (fun l => (10 <= length l)%nat /\ ~ ends_with_mark l /\ ~ starts_with_mark l)
         lines ->
  merge_lines lines = [concat lines].
Proof.
  intros Hne H. destruct lines as [|x rest]; [congruence|].
  inversion H as [|? ? (Hx & Hex & _) Hrest]; subst.
  now apply merge_lines_all_from.
Qed.

(** ** Splitting into lines and joining *)

Lemma split_newline_cons (s : str) : exists piece pieces, split_newline s = piece :: pieces.
Proof.
  induction s as [|c s (p & ps & IH)]; simpl.
  - now exists [], [].
  - destruct (c =? 10); [now eexists; eexists|]. rewrite IH. now eexists; eexists.
Qed.

Lemma split_newline_pieces (s : str) :
  Forall (fun piece => ~ In 10 piece) (split_newline s).
Proof.
  induction s as [|c s IH]; simpl.
  - constructor; [intros [] | constructor].
  - destruct (Z.eqb_spec c 10) as [E | NE].
    + constructor; [intros [] | exact IH].
    + destruct (split_newline s) as [|p ps]; [repeat constructor; intros [H | []]; auto|].
      inversion IH as [|? ? Hp Hps]; subst. constructor; [|exact Hps].
      intros [H | H]; auto.
Qed.

Lemma join_split_newline (s : str) : join nl (split_newline s) = s.
Proof.
  induction s as [|c s IH]; [reflexivity|]. simpl split_newline.
  destruct (split_newline_cons s) as (p & ps & E). rewrite E in *.
  destruct (Z.eqb_spec c 10) as [-> | NE].
  - change (join nl ([] :: p :: ps)) with ([] ++ nl ++ join nl (p :: ps)).
    now rewrite IH.
  - destruct ps as [|q ps]; simpl in *; now rewrite IH.
Qed.

Lemma split_newline_step (c : Z) (rest : str) :
  split_newline (c :: rest) =
  if c =? 10 then [] :: split_newline rest
  else match split_newline rest with
       | [] => [[c]]
       | piece :: pieces => (c :: piece) :: pieces
       end.
Proof. reflexivity. Qed.

Lemma split_newline_app (a b : str) :
  split_newline (a ++ nl ++ b) = split_newline a ++ split_newline b.
Proof.
  induction a as [|c a IH]; [reflexivity|].
  change ((c :: a) ++ nl ++ b) with (c :: (a ++ nl ++ b)).
  rewrite !split_newline_step, IH. destruct (c =? 10); [reflexivity|].
  destruct (split_newline_cons a) as (p & ps & E). rewrite E. reflexivity.
Qed.

Lemma split_newline_one (s : str) : ~ In 10 s -> split_newline s = [s].
Proof.
  induction s as [|c s IH]; intros H; [reflexivity|]. simpl.
  destruct (Z.eqb_spec c 10) as [E | NE]; [elim H; now left|].
  rewrite IH; [reflexivity|]. intros H'. apply H. now right.
Qed.

Lemma split_newline_join (parts : list str) :
  parts <> [] -> Forall (fun piece => ~ In 10 piece) parts ->
  split_newline (join nl parts) = parts.
Proof.
  induction parts as [|p [|q rest] IH]; intros Hne H; [congruence| |].
  - simpl. apply split_newline_one. now inversion H.
  - change (join nl (p :: q :: rest)) with (p ++ nl ++ join nl (q :: rest)).
    inversion H as [|? ? Hp Hrest]; subst.
    rewrite split_newline_app, (split_newline_one p Hp), IH; auto. discriminate.
Qed.

(** X4: splitting at newlines and joining with newlines are inverse to
    each other: a text is the join of its lines, a text always has at
    least one line and no line holds a newline; and a non-empty list of
    lines without newlines is the split of its join. *)
Theorem split_join_inverse :
  (forall s : str,
      join nl (split_newline s) = s /\
      split_newline s <> [] /\
      Forall (fun piece => ~ In 10 piece) (split_newline s)) /\
  (forall parts : list str,
      parts <> [] -> Forall (fun piece => ~ In 10 piece) parts ->
      split_newline (join nl parts) = parts).
Proof.
  split.
  - intros s. split; [apply join_split_newline|]. split; [|apply split_newline_pieces].
    destruct (split_newline_cons s) as (p & ps & ->). discriminate.
  - apply split_newline_join.
Qed.

(** ** The raw text *)

Lemma code_points_digits (d : Decimal.uint) :
  forallb ascii_digit (code_points (DecimalString.NilEmpty.string_of_uint d)) = true.
Proof. induction d; simpl; auto. Qed.

Lemma to_uint_not_nil (n : nat) : Nat.to_uint n <> Decimal.Nil.
Proof.
  intros H. pose proof (DecimalNat.Unsigned.of_to n) as E. rewrite H in E.
  simpl in E. subst n. discriminate H.
Qed.

(** A page number is written as a non-empty run of the digits [0]..[9]. *)
Lemma decimal_digits (n : nat) :
  decimal n <> [] /\ forallb ascii_digit (decimal n) = true.
Proof.
  unfold decimal. split; [|apply code_points_digits].
  pose proof (to_uint_not_nil n) as H.
  destruct (Nat.to_uint n); [congruence | discriminate ..].
Qed.

Lemma digits_no_newline (ds : str) : forallb ascii_digit ds = true -> ~ In 10 ds.
Proof.
  intros H Hin. rewrite forallb_forall in H. specialize (H 10 Hin). discriminate.
Qed.

Lemma page_marker_line_no_newline (n : nat) : ~ In 10 (page_marker_line n).
Proof.
  unfold page_marker_line. intros H.
  apply in_app_or in H as [H | H].
  - vm_compute in H. intuition discriminate.
  - apply in_app_or in H as [H | H].
    + exact (digits_no_newline _ (proj2 (decimal_digits n)) H).
    + vm_compute in H. intuition discriminate.
Qed.

Lemma extract_fold (pages : list (option str)) : forall (n : nat) (acc : list str),
  snd (fold_left extract_step pages (n, acc)) =
  acc ++ map (fun p => page_chunk (fst p) (snd p)) (pages_with_text n pages).
Proof.
  induction pages as [|page pages IH]; intros n acc; simpl.
  - now rewrite app_nil_r.
  - destruct page as [text|]; [destruct (is_empty text)|]; rewrite IH; auto.
    simpl. now rewrite <- app_assoc.
Qed.

Lemma split_page_chunk (n : nat) (text : str) :
  split_newline (page_chunk n text) =
  page_marker_line n :: split_newline text ++ [[]].
Proof.
  unfold page_chunk. rewrite split_newline_app.
  rewrite (split_newline_one _ (page_marker_line_no_newline n)).
  rewrite <- (app_nil_r (text ++ nl)), <- app_assoc, split_newline_app. reflexivity.
Qed.

Lemma split_joined_chunks (p : nat * str) (ps : list (nat * str)) :
  split_newline (join nl (map (fun p => page_chunk (fst p) (snd p)) (p :: ps))) =
  flat_map (fun p => page_marker_line (fst p) :: split_newline (snd p) ++ [[]])
           (p :: ps).
Proof.
  revert p; induction ps as [|q ps IH]; intros p.
  - cbn [map join flat_map]. now rewrite split_page_chunk, app_nil_r.
  - cbn [flat_map]. change (map _ (p :: q :: ps))
      with (page_chunk (fst p) (snd p) ::
            map (fun p => page_chunk (fst p) (snd p)) (q :: ps)).
    change (join nl (?c :: map ?f (q :: ps)))
      with (c ++ nl ++ join nl (map f (q :: ps))).
    rewrite split_newline_app, IH, split_page_chunk. reflexivity.
Qed.

Lemma raw_text_split (pages : list (option str)) :
  split_newline (raw_text pages) =
  match pages_with_text 1 pages with
  | [] => [[]]
  | _ :: _ =>
      flat_map (fun p => page_marker_line (fst p) :: split_newline (snd p) ++ [[]])
               (pages_with_text 1 pages)
  end.
Proof.
  unfold raw_text. rewrite extract_fold. simpl app.
  destruct (pages_with_text 1 pages) as [|p ps]; [reflexivity|].
  apply split_joined_chunks.
Qed.

(** X5: the lines of the raw text are, for each page that has text and
    in page order, the marker line with the page's number (pages
    without text are counted and left out), the lines of the page's text,
    and one empty line; with no text at all there is one empty line. *)
Theorem raw_text_lines (pages : list (option str)) :
  split_newline (raw_text pages) =
  match pages_with_text 1 pages with
  | [] => [[]]
  | _ :: _ =>
      flat_map (fun p => page_marker_line (fst p) :: split_newline (snd p) ++ [[]])
               (pages_with_text 1 pages)
  end.
Proof. apply raw_text_split. Qed.

Lemma page_marker_line_is_marker (n : nat) : is_page_marker (page_marker_line n) = true.
Proof.
  unfold is_page_marker, page_marker_line. apply andb_true_iff. split.
  - apply startswith_iff. exists (u " " ++ decimal n ++ u " 页 ---"). reflexivity.
  - apply endswith_iff. exists (u "--- 第 " ++ decimal n ++ u " ").
    rewrite <- !app_assoc. reflexivity.
Qed.

Section RawText.

Context {U : UnicodeTables}.

Lemma digits_are_decimal (ds : str) :
  forallb ascii_digit ds = true -> forallb isdecimal_cp ds = true.
Proof.
  intros H. rewrite !forallb_forall in *. intros c Hc. specialize (H c Hc).
  unfold isdecimal_cp. destruct (is_ascii c) eqn:E; [exact H|].
  apply ascii_digit_cases in H. simpl in H. intuition (subst; discriminate E).
Qed.

Lemma page_marker_line_matches (n : nat) :
  re_match re_page_marker (page_marker_line n) = true.
Proof.
  destruct (decimal_digits n) as [Hne Hd].
  apply re_match_true. eexists. unfold re_page_marker, page_marker_line, lit.
  eapply in_run_cat; [apply in_run_bos|].
  eapply in_run_cat; [apply in_run_lits|].
  eapply in_run_cat; [apply in_run_plus_cls; [exact Hne | now apply digits_are_decimal]|].
  rewrite <- (app_nil_r (u " 页 ---")).
  eapply in_run_cat; [apply in_run_lits|].
  simpl. now left.
Qed.

Lemma strip_page_marker_line (n : nat) : strip (page_marker_line n) = page_marker_line n.
Proof.
  unfold strip, page_marker_line.
  change (u "--- 第 " ++ decimal n ++ u " 页 ---")
    with (45 :: (u "-- 第 " ++ decimal n ++ u " 页 ---")).
  rewrite lstrip_cons by reflexivity.
  change (45 :: (u "-- 第 " ++ decimal n ++ u " 页 ---"))
    with (u "--- 第 " ++ decimal n ++ (u " 页 --" ++ [45])).
  rewrite !app_assoc. now apply rstrip_snoc.
Qed.

(** X6: the marker line written before each page is recognised on the
    way back, whatever the page number: it is a page marker for the first
    loop of the pass, and it is noise for [is_header_footer]. *)
Theorem page_marker_line_recognised (page_num : nat) :
  is_page_marker (page_marker_line page_num) = true /\
  is_header_footer (page_marker_line page_num) = true.
Proof.
  split; [apply page_marker_line_is_marker|].
  unfold is_header_footer. rewrite strip_page_marker_line, page_marker_line_matches.
  destruct (is_empty (page_marker_line page_num)); [reflexivity|].
  destruct (isdigit (page_marker_line page_num)); reflexivity.
Qed.

Lemma prepared_blank : prepared [[]] = [].
Proof. reflexivity. Qed.

Lemma prepared_page (n : nat) (text : str) :
  prepared (page_marker_line n :: split_newline text ++ [[]]) =
  prepared (split_newline text).
Proof.
  change (page_marker_line n :: split_newline text ++ [[]])
    with ([page_marker_line n] ++ split_newline text ++ [[]]).
  rewrite !prepared_app, prepared_blank, app_nil_r.
  unfold prepared at 1. cbn [filter]. rewrite page_marker_line_is_marker. reflexivity.
Qed.

Lemma prepared_pages (ps : list (nat * str)) :
  prepared
    (flat_map (fun p => page_marker_line (fst p) :: split_newline (snd p) ++ [[]]) ps) =
  prepared (flat_map (fun p => split_newline (snd p)) ps).
Proof.
  induction ps as [|p ps IH]; [reflexivity|].
  cbn [flat_map]. now rewrite !prepared_app, prepared_page, IH.
Qed.

(** X7: the records of the raw text that [convert_pdf_to_text] assembles
    are the records of the lines of the page texts alone, in page order:
    the marker lines and the empty line after each page leave no
    trace. *)
Theorem raw_text_records (pages : list (option str)) :
  structuring_pass (split_newline (raw_text pages)) =
  structuring_pass (flat_map (fun p => split_newline (snd p)) (pages_with_text 1 pages)).
Proof.
  rewrite !structuring_pass_segments, raw_text_split.
  destruct (pages_with_text 1 pages) as [|p ps] eqn:E; [reflexivity|].
  now rewrite prepared_pages.
Qed.

(** X8: [is_section_title] does not see white space around a line. *)
Theorem is_section_title_strip (line : str) :
  is_section_title (strip line) = is_section_title line.
Proof.
  unfold is_section_title. rewrite strip_idem.
  destruct line as [|c line]; [reflexivity|].
  cbn [is_empty orb]. now rewrite orb_diag.
Qed.

End RawText.

(** ** Regular expressions: what a match has consumed *)

Lemma in_run_cat_inv (a b : regex) (st st2 : pos) :
  In st2 (run (Cat a b) st) -> exists st1, In st1 (run a st) /\ In st2 (run b st1).
Proof. simpl. intros H. apply in_flat_map in H. exact H. Qed.

Lemma in_run_lits_inv (cs : str) : forall (n m : nat) (s t : str),
  In (m, t) (run (lits cs) (n, s)) -> s = cs ++ t /\ m = (n + length cs)%nat.
Proof.
  induction cs as [|c cs IH]; intros n m s t H.
  - simpl in H. destruct H as [H | []]. injection H as <- <-. split; [reflexivity | simpl; lia].
  - change (lits (c :: cs)) with (Cat (Cls (Z.eqb c)) (lits cs)) in H.
    apply in_run_cat_inv in H as ([n1 s1] & H1 & H2).
    simpl in H1. destruct s as [|x s]; [contradiction|].
    destruct (Z.eqb_spec c x) as [<- | NE]; [|contradiction].
    destruct H1 as [H1 | []]. injection H1 as <- <-.
    apply IH in H2 as [-> ->]. split; [reflexivity | simpl; lia].
Qed.

Lemma in_iter_cls_inv (p : Z -> bool) : forall (k n m : nat) (s t : str),
  In (m, t) (iter (run (Cls p)) k (n, s)) ->
  exists w, forallb p w = true /\ s = w ++ t /\ m = (n + length w)%nat.
Proof.
  induction k as [|k IH]; intros n m s t H;
    apply in_iter_inv in H as [H | (k' & [n1 s1] & E & H1 & _ & H2)].
  - injection H as <- <-. exists []. repeat split. simpl. lia.
  - discriminate.
  - injection H as <- <-. exists []. repeat split. simpl. lia.
  - injection E as <-. simpl in H1. destruct s as [|c s]; [contradiction|].
    destruct (p c) eqn:Hc; [|contradiction]. destruct H1 as [H1 | []].
    injection H1 as <- <-. apply IH in H2 as (w & Hw & -> & ->).
    exists (c :: w). simpl. rewrite Hc, Hw. repeat split. lia.
Qed.

Lemma in_run_plus_cls_inv (p : Z -> bool) (n m : nat) (s t : str) :
  In (m, t) (run (Plus (Cls p)) (n, s)) ->
  exists w, w <> [] /\ forallb p w = true /\ s = w ++ t /\ m = (n + length w)%nat.
Proof.
  intros H. simpl in H. apply in_flat_map in H as ([n1 s1] & H1 & H2).
  destruct s as [|c s]; [contradiction|].
  destruct (p c) eqn:Hc; [|contradiction]. destruct H1 as [H1 | []].
  injection H1 as <- <-. apply in_iter_cls_inv in H2 as (w & Hw & -> & ->).
  exists (c :: w). simpl. rewrite Hc, Hw. repeat split; [discriminate | lia].
Qed.

(** Where a run of [p] ends is determined by the first code point that is
    not in [p]. *)
Lemma class_run_unique (p : Z -> bool) (a : str) : forall (b r1 r2 : str) (x y : Z),
  forallb p a = true -> forallb p b = true -> p x = false -> p y = false ->
  a ++ x :: r1 = b ++ y :: r2 -> a = b /\ x = y /\ r1 = r2.
Proof.
  induction a as [|c a IH]; intros b r1 r2 x y Ha Hb Hx Hy E.
  - destruct b as [|d b]; simpl in *.
    + injection E as -> ->. auto.
    + injection E as -> _. apply andb_true_iff in Hb as [Hb _]. congruence.
  - destruct b as [|d b]; simpl in *.
    + injection E as -> _. apply andb_true_iff in Ha as [Ha _]. congruence.
    + injection E as -> E. apply andb_true_iff in Ha as [_ Ha].
      apply andb_true_iff in Hb as [_ Hb].
      destruct (IH b r1 r2 x y Ha Hb Hx Hy E) as (-> & -> & ->). auto.
Qed.

Lemma lstrip_app_nonspace (x v : str) :
  v <> [] -> forallb (fun c => negb (isspace c)) v = true ->
  lstrip (x ++ v) = lstrip x ++ v.
Proof.
  intros Hne Hv. induction x as [|c x IH]; simpl.
  - destruct v as [|d v]; [congruence|]. simpl in Hv.
    apply andb_true_iff in Hv as [Hd _]. apply negb_true_iff in Hd.
    simpl. now rewrite Hd.
  - destruct (isspace c); [exact IH | reflexivity].
Qed.

(** Trimming keeps a prefix that holds no white space. *)
Lemma strip_prefix (w s : str) :
  w <> [] -> forallb (fun c => negb (isspace c)) w = true ->
  exists z, strip (w ++ s) = w ++ z.
Proof.
  intros Hne Hw. exists (rstrip s). unfold strip.
  assert (H1 : lstrip (w ++ s) = w ++ s).
  { destruct w as [|c w]; [congruence|]. simpl in Hw.
    apply andb_true_iff in Hw as [Hc _]. apply negb_true_iff in Hc.
    simpl. now rewrite Hc. }
  rewrite H1. unfold rstrip. rewrite rev_app_distr, lstrip_app_nonspace.
  - now rewrite rev_app_distr, rev_involutive.
  - intros E. apply (f_equal (@rev Z)) in E. rewrite rev_involutive in E. now subst.
  - now rewrite forallb_rev.
Qed.

(** A text that begins and ends with something other than white space
    trims to itself. *)
Lemma strip_ends (c d : Z) (m : str) :
  isspace c = false -> isspace d = false -> strip (c :: m ++ [d]) = c :: m ++ [d].
Proof.
  intros Hc Hd. unfold strip. rewrite (lstrip_cons c _ Hc).
  change (c :: m ++ [d]) with ((c :: m) ++ [d]). now apply rstrip_snoc.
Qed.

(** ** More on the classifier *)

Section ClassifierRules.

Context {U : UnicodeTables}.

Lemma lower_from_prefix (w : str) : forall (before rest : str),
  forallb caseless_or_ascii w = true ->
  lower_from before (w ++ rest) = map ascii_tolower w ++ lower_from (before ++ w) rest.
Proof.
  induction w as [|c w IH]; intros before rest H; simpl.
  - now rewrite app_nil_r.
  - simpl in H. apply andb_true_iff in H as [Hc Hw].
    unfold lower_cp. rewrite Hc. simpl. rewrite (IH _ _ Hw), <- app_assoc. reflexivity.
Qed.

(** The text the case-insensitive rules see, when the line begins with
    code points that have no capital and are no white space. *)
Lemma text_lower_prefix (w rest : str) :
  w <> [] -> forallb caseless_or_ascii w = true ->
  forallb (fun c => negb (isspace c)) (map ascii_tolower w) = true ->
  exists z, strip (lower (w ++ rest)) = map ascii_tolower w ++ z.
Proof.
  intros Hne Hw Hs. unfold lower. rewrite (lower_from_prefix w [] rest Hw).
  apply strip_prefix; [|exact Hs]. destruct w; [congruence | discriminate].
Qed.

Lemma chapter_bare_matches (nums : str) :
  nums <> [] -> forallb numeral nums = true ->
  re_match re_chapter_bare (u "第" ++ nums ++ u "章") = true.
Proof.
  intros Hne Hn. apply re_match_true. eexists. unfold re_chapter_bare, lit.
  eapply in_run_cat; [apply in_run_bos|].
  eapply in_run_cat; [apply in_run_lits|].
  eapply in_run_cat; [apply in_run_plus_cls; assumption|].
  rewrite <- (app_nil_r (u "章")).
  eapply in_run_cat; [apply in_run_lits|].
  simpl. now left.
Qed.

Lemma chapter_title_matches (nums sp title : str) :
  nums <> [] -> forallb numeral nums = true ->
  sp <> [] -> forallb (one_of " 　") sp = true ->
  re_match re_chapter_title (u "第" ++ nums ++ u "章" ++ sp ++ title) = true.
Proof.
  intros Hne Hn Hsp Hs. apply re_match_true. eexists. unfold re_chapter_title, lit.
  eapply in_run_cat; [apply in_run_bos|].
  eapply in_run_cat; [apply in_run_lits|].
  eapply in_run_cat; [apply in_run_plus_cls; assumption|].
  eapply in_run_cat; [apply in_run_lits|].
  apply in_run_plus_cls; assumption.
Qed.

Lemma not_toc_not_preface (c : Z) (t : str) :
  caseless_or_ascii c = true -> ascii_upper c = false -> isspace c = false ->
  first re_toc c = false -> first re_preface c = false ->
  exists z, strip (lower (c :: t)) = c :: z /\
            re_match re_toc (c :: z) = false /\ re_match re_preface (c :: z) = false.
Proof.
  intros H1 H2 H3 Ht Hp. destruct (text_lower_cons c t H1 H2 H3) as [z Hz].
  exists z. split; [exact Hz|]. split; apply re_match_first; auto.
Qed.

(** X9: a line made of the ordinal marker, a numeral written with the
    source's numeral characters and the chapter character is a chapter,
    alone or followed by spaces (half-width or ideographic) and any
    title; its text is kept as it is. *)
Theorem chapter_lines_are_chapters (nums : str) :
  nums <> [] -> forallb numeral nums = true ->
  identify_structure (u "第" ++ nums ++ u "章") = (chapter, u "第" ++ nums ++ u "章") /\
  (forall sp title : str,
      sp <> [] -> forallb (one_of " 　") sp = true ->
      identify_structure (u "第" ++ nums ++ u "章" ++ sp ++ title) =
      (chapter, u "第" ++ nums ++ u "章" ++ sp ++ title)).
Proof.
  intros Hne Hn. split.
  - destruct (not_toc_not_preface 31532 (nums ++ u "章") eq_refl eq_refl eq_refl
                eq_refl eq_refl) as (z & Hz & Ht & Hp).
    change (31532 :: (nums ++ u "章")) with (u "第" ++ nums ++ u "章") in Hz.
    unfold identify_structure.
    rewrite Hz, Ht, Hp, (chapter_bare_matches nums Hne Hn). reflexivity.
  - intros sp title Hsp Hs.
    destruct (not_toc_not_preface 31532 (nums ++ u "章" ++ sp ++ title)
                eq_refl eq_refl eq_refl eq_refl eq_refl) as (z & Hz & Ht & Hp).
    change (31532 :: (nums ++ u "章" ++ sp ++ title))
      with (u "第" ++ nums ++ u "章" ++ sp ++ title) in Hz.
    unfold identify_structure.
    rewrite Hz, Ht, Hp, (chapter_title_matches nums sp title Hne Hn Hsp Hs).
    destruct (re_match re_chapter_bare _); reflexivity.
Qed.

(** No chapter pattern matches where the section character follows the
    numeral. *)
Lemma chapter_patterns_need_chapter_character (nums rest : str) (r : regex) :
  forallb numeral nums = true ->
  re_match (Bos ;; lit "第" ;; Plus (Cls numeral) ;; lit "章" ;; r)
           (u "第" ++ nums ++ u "节" ++ rest) = false.
Proof.
  intros Hn.
  destruct (re_match _ _) eqn:E; [|reflexivity]. exfalso.
  apply re_match_true in E as [st H].
  apply in_run_cat_inv in H as ([n0 s0] & H0 & H).
  simpl in H0. destruct H0 as [H0 | []]. injection H0 as <- <-.
  apply in_run_cat_inv in H as ([n1 s1] & H1 & H).
  apply in_run_lits_inv in H1 as [E1 ->].
  apply in_run_cat_inv in H as ([n2 s2] & H2 & H).
  apply in_run_plus_cls_inv in H2 as (w & _ & Hw & -> & ->).
  apply in_run_cat_inv in H as ([n3 s3] & H3 & _).
  apply in_run_lits_inv in H3 as [-> _].
  change (u "第" ++ nums ++ u "节" ++ rest) with (31532 :: (nums ++ 33410 :: rest)) in E1.
  change (u "第" ++ w ++ u "章" ++ s3) with (31532 :: (w ++ 31456 :: s3)) in E1.
  injection E1 as E1.
  destruct (class_run_unique numeral nums w rest s3 33410 31456 Hn Hw eq_refl eq_refl E1)
    as (_ & E2 & _).
  discriminate E2.
Qed.

Lemma section_cn_matches (nums rest : str) :
  nums <> [] -> forallb numeral nums = true ->
  re_match re_section_cn (u "第" ++ nums ++ u "节" ++ rest) = true.
Proof.
  intros Hne Hn. apply re_match_true. eexists. unfold re_section_cn, lit.
  eapply in_run_cat; [apply in_run_bos|].
  eapply in_run_cat; [apply in_run_lits|].
  eapply in_run_cat; [apply in_run_plus_cls; assumption|].
  eapply in_run_cat; [apply in_run_lits|].
  exact (in_run_star_cls _ [] _ rest eq_refl).
Qed.

(** X10: a line that begins with the ordinal marker, a numeral and the
    section character is a section, whatever follows the section
    character. *)
Theorem section_marker_lines_are_sections (nums rest : str) :
  nums <> [] -> forallb numeral nums = true ->
  identify_structure (u "第" ++ nums ++ u "节" ++ rest) =
  (section, u "第" ++ nums ++ u "节" ++ rest).
Proof.
  intros Hne Hn.
  destruct (not_toc_not_preface 31532 (nums ++ u "节" ++ rest) eq_refl eq_refl eq_refl
              eq_refl eq_refl) as (z & Hz & Ht & Hp).
  change (31532 :: (nums ++ u "节" ++ rest)) with (u "第" ++ nums ++ u "节" ++ rest) in Hz.
  unfold identify_structure.
  rewrite Hz, Ht, Hp.
  pose proof (chapter_patterns_need_chapter_character nums rest Eos Hn) as H1.
  pose proof (chapter_patterns_need_chapter_character nums rest
                (Plus (Cls (one_of " 　"))) Hn) as H2.
  fold re_chapter_bare in H1. fold re_chapter_title in H2.
  rewrite H1, H2, (section_cn_matches nums rest Hne Hn).
  destruct (re_match re_numbered _); reflexivity.
Qed.

End ClassifierRules.

Lemma in_run_star_here (a : regex) (st : pos) : In st (run (Star a) st).
Proof. simpl. apply in_iter_here. Qed.

Lemma in_run_alt (a b : regex) (st st' : pos) :
  In st' (run a st) \/ In st' (run b st) -> In st' (run (Alt a b) st).
Proof. intros H. simpl. apply in_or_app. exact H. Qed.

Lemma in_run_alt_inv (a b : regex) (st st' : pos) :
  In st' (run (Alt a b) st) -> In st' (run a st) \/ In st' (run b st).
Proof. simpl. apply in_app_or. Qed.

Lemma tolower_ascii_all (w : str) :
  forallb is_ascii (map ascii_tolower w) = true -> forallb caseless_or_ascii w = true.
Proof.
  induction w as [|c w IH]; simpl; [reflexivity|].
  intros H. apply andb_true_iff in H as [Hc Hw]. rewrite (IH Hw), andb_true_r.
  unfold caseless_or_ascii. apply orb_true_iff. left.
  unfold is_ascii, ascii_tolower, ascii_upper in *.
  destruct ((65 <=? c) && (c <=? 90)) eqn:E; [|exact Hc].
  apply andb_true_iff in E as [_ E]. apply Z.leb_le in E. apply Z.ltb_lt. lia.
Qed.

Lemma tolower_letter_a (c : Z) : ascii_tolower c = 97 -> c = 65 \/ c = 97.
Proof.
  unfold ascii_tolower, ascii_upper.
  destruct ((65 <=? c) && (c <=? 90)); intros H; [left | right]; lia.
Qed.

Section AppendixRule.

Context {U : UnicodeTables}.

Lemma preface_not_appendix (z : str) :
  re_match re_preface (u "appendix" ++ z) = false.
Proof.
  destruct (re_match _ _) eqn:E; [|reflexivity]. exfalso.
  apply re_match_true in E as [st H]. unfold re_preface in H.
  apply in_run_cat_inv in H as ([n0 s0] & H0 & H).
  simpl in H0. destruct H0 as [H0 | []]. injection H0 as <- <-.
  apply in_run_cat_inv in H as ([n1 s1] & H & _).
  repeat (apply in_run_alt_inv in H; destruct H as [H | H]);
    unfold lit in H; apply in_run_lits_inv in H as [E _];
    vm_compute in E; discriminate E.
Qed.

Lemma appendix_matches (w z : str) :
  w = u "附录" \/ w = u "appendix" -> re_match re_appendix (w ++ z) = true.
Proof.
  intros Hw. apply re_match_true.
  exists ((0 + length w)%nat, z). unfold re_appendix, lit.
  eapply in_run_cat; [apply in_run_bos|].
  apply in_run_cat with ((0 + length w)%nat, z).
  - apply in_run_alt. destruct Hw as [-> | ->]; [left | right]; apply in_run_lits.
  - apply in_run_star_here.
Qed.

(** X11: the appendix rule looks at the beginning of the line only: a
    line that begins with the appendix word, in ideographs or in Latin
    letters of either case, is an appendix whatever follows it. *)
Theorem appendix_prefix_lines :
  (forall rest : str,
      identify_structure (u "附录" ++ rest) = (appendix, u "附录" ++ rest)) /\
  (forall w rest : str,
      map ascii_tolower w = u "appendix" ->
      identify_structure (w ++ rest) = (appendix, w ++ rest)).
Proof.
  split.
  - intros rest.
    destruct (text_lower_prefix (u "附录") rest) as [z Hz];
      [discriminate | reflexivity | reflexivity |].
    change (map ascii_tolower (u "附录")) with (u "附录") in Hz.
    unfold identify_structure. rewrite Hz.
    rewrite (appendix_matches (u "附录") z (or_introl eq_refl)).
    change (u "附录" ++ z) with (38468 :: (u "录" ++ z)).
    change (u "附录" ++ rest) with (38468 :: (u "录" ++ rest)).
    rewrite (re_match_first re_toc 38468 _ eq_refl eq_refl),
      (re_match_first re_preface 38468 _ eq_refl eq_refl),
      (re_match_first re_chapter_bare 38468 _ eq_refl eq_refl),
      (re_match_first re_chapter_title 38468 _ eq_refl eq_refl),
      (re_match_first re_numbered 38468 _ eq_refl eq_refl),
      (re_match_first re_section_cn 38468 _ eq_refl eq_refl).
    reflexivity.
  - intros w rest Hw.
    assert (Ha : forallb caseless_or_ascii w = true)
      by (apply tolower_ascii_all; rewrite Hw; reflexivity).
    destruct (text_lower_prefix w rest) as [z Hz];
      [destruct w; discriminate | exact Ha | rewrite Hw; reflexivity |].
    rewrite Hw in Hz. unfold identify_structure. rewrite Hz.
    rewrite (appendix_matches (u "appendix") z (or_intror eq_refl)).
    rewrite preface_not_appendix.
    change (u "appendix" ++ z) with (97 :: (u "ppendix" ++ z)).
    rewrite (re_match_first re_toc 97 _ eq_refl eq_refl).
    destruct w as [|c w]; [discriminate|]. injection Hw as Hc _.
    change ((c :: w) ++ rest) with (c :: (w ++ rest)).
    destruct (tolower_letter_a c Hc) as [-> | ->].
    + rewrite (re_match_first re_chapter_bare 65 _ eq_refl eq_refl),
        (re_match_first re_chapter_title 65 _ eq_refl eq_refl),
        (re_match_first re_numbered 65 _ eq_refl eq_refl),
        (re_match_first re_section_cn 65 _ eq_refl eq_refl).
      reflexivity.
    + rewrite (re_match_first re_chapter_bare 97 _ eq_refl eq_refl),
        (re_match_first re_chapter_title 97 _ eq_refl eq_refl),
        (re_match_first re_numbered 97 _ eq_refl eq_refl),
        (re_match_first re_section_cn 97 _ eq_refl eq_refl).
      reflexivity.
Qed.

End AppendixRule.

(** ** More on the line filter *)

Lemma contains_app (pre kw post : str) : contains (pre ++ kw ++ post) kw = true.
Proof.
  induction pre as [|c pre IH].
  - simpl app. destruct (kw ++ post) eqn:E; simpl; apply orb_true_iff; left;
      apply startswith_iff; exists post; now rewrite <- E.
  - simpl. rewrite IH. apply orb_true_r.
Qed.

Section FilterRules.

Context {U : UnicodeTables}.

(** X12: a line that holds the copyright sign or the words for all
    rights reserved, anywhere in it, is noise. *)
Theorem keyword_lines_are_noise (pre kw post : str) :
  In kw common_header_footer -> is_header_footer (pre ++ kw ++ post) = true.
Proof.
  intros Hkw. unfold is_header_footer.
  repeat match goal with
         | |- (if ?c then true else _) = true => destruct c; [reflexivity|]
         end.
  apply existsb_exists. exists kw. split; [exact Hkw | apply contains_app].
Qed.

Lemma page_cn_matches (ws1 n ws2 : str) :
  n <> [] -> forallb ascii_digit n = true ->
  forallb isspace ws1 = true -> forallb isspace ws2 = true ->
  re_match re_page_cn (u "第" ++ ws1 ++ n ++ ws2 ++ u "页") = true.
Proof.
  intros Hne Hn H1 H2. apply re_match_true. eexists. unfold re_page_cn, lit.
  eapply in_run_cat; [apply in_run_bos|].
  eapply in_run_cat; [apply in_run_lits|].
  eapply in_run_cat; [apply in_run_star_cls; exact H1|].
  eapply in_run_cat; [apply in_run_plus_cls; [exact Hne | now apply digits_are_decimal]|].
  eapply in_run_cat; [apply in_run_star_cls; exact H2|].
  rewrite <- (app_nil_r (u "页")).
  eapply in_run_cat; [apply in_run_lits|].
  simpl. now left.
Qed.

Lemma page_en_matches (ws1 n ws2 ws3 m : str) :
  n <> [] -> forallb ascii_digit n = true ->
  m <> [] -> forallb ascii_digit m = true ->
  forallb isspace ws1 = true -> forallb isspace ws2 = true ->
  forallb isspace ws3 = true ->
  re_match re_page_en (u "Page" ++ ws1 ++ n ++ ws2 ++ u "of" ++ ws3 ++ m) = true.
Proof.
  intros Hn1 Hn Hm1 Hm H1 H2 H3.
  replace (u "Page" ++ ws1 ++ n ++ ws2 ++ u "of" ++ ws3 ++ m)
    with (u "Page" ++ ws1 ++ n ++ ws2 ++ u "of" ++ ws3 ++ m ++ [])
    by now rewrite app_nil_r.
  apply re_match_true. eexists. unfold re_page_en, lit.
  eapply in_run_cat; [apply in_run_bos|].
  eapply in_run_cat; [apply in_run_lits|].
  eapply in_run_cat; [apply in_run_star_cls; exact H1|].
  eapply in_run_cat; [apply in_run_plus_cls; [exact Hn1 | now apply digits_are_decimal]|].
  eapply in_run_cat; [apply in_run_star_cls; exact H2|].
  eapply in_run_cat; [apply in_run_lits|].
  eapply in_run_cat; [apply in_run_star_cls; exact H3|].
  eapply in_run_cat; [apply in_run_plus_cls; [exact Hm1 | now apply digits_are_decimal]|].
  simpl. now left.
Qed.

(** X13: a page label is noise, however much white space is inside it:
    the ordinal marker, a number and the page character, and
    [Page], a number, [of] and a number. *)
Theorem page_labels_are_noise (ws1 n ws2 ws3 m : str) :
  n <> [] -> forallb ascii_digit n = true ->
  m <> [] -> forallb ascii_digit m = true ->
  forallb isspace ws1 = true -> forallb isspace ws2 = true ->
  forallb isspace ws3 = true ->
  is_header_footer (u "第" ++ ws1 ++ n ++ ws2 ++ u "页") = true /\
  is_header_footer (u "Page" ++ ws1 ++ n ++ ws2 ++ u "of" ++ ws3 ++ m) = true.
Proof.
  intros Hn1 Hn Hm1 Hm H1 H2 H3. split.
  - assert (E : strip (u "第" ++ ws1 ++ n ++ ws2 ++ u "页") =
                u "第" ++ ws1 ++ n ++ ws2 ++ u "页").
    { change (u "第" ++ ws1 ++ n ++ ws2 ++ u "页")
        with (31532 :: (ws1 ++ n ++ ws2 ++ [39029])).
      replace (ws1 ++ n ++ ws2 ++ [39029]) with ((ws1 ++ n ++ ws2) ++ [39029])
        by now rewrite <- !app_assoc.
      now apply strip_ends. }
    unfold is_header_footer. rewrite E, (page_cn_matches ws1 n ws2 Hn1 Hn H1 H2).
    cbn [orb].
    repeat match goal with
           | |- (if true then true else _) = true => reflexivity
           | |- (if ?c then true else _) = true => destruct c; [reflexivity|]
           end; reflexivity.
  - assert (E : strip (u "Page" ++ ws1 ++ n ++ ws2 ++ u "of" ++ ws3 ++ m) =
                u "Page" ++ ws1 ++ n ++ ws2 ++ u "of" ++ ws3 ++ m).
    { destruct (@exists_last _ m Hm1) as (m' & d & ->).
      assert (Hd : isspace d = false).
      { rewrite forallb_app in Hm. apply andb_true_iff in Hm as [_ Hd]. simpl in Hd.
        rewrite andb_true_r in Hd. apply ascii_digit_cases in Hd. simpl in Hd.
        intuition (subst; reflexivity). }
      change (u "Page" ++ ws1 ++ n ++ ws2 ++ u "of" ++ ws3 ++ m' ++ [d])
        with (80 :: (u "age" ++ ws1 ++ n ++ ws2 ++ u "of" ++ ws3 ++ m' ++ [d])).
      replace (u "age" ++ ws1 ++ n ++ ws2 ++ u "of" ++ ws3 ++ m' ++ [d])
        with ((u "age" ++ ws1 ++ n ++ ws2 ++ u "of" ++ ws3 ++ m') ++ [d])
        by now rewrite <- !app_assoc.
      now apply strip_ends. }
    unfold is_header_footer.
    rewrite E, (page_en_matches ws1 n ws2 ws3 m Hn1 Hn Hm1 Hm H1 H2 H3), orb_true_r.
    repeat match goal with
           | |- (if true then true else _) = true => reflexivity
           | |- (if ?c then true else _) = true => destruct c; [reflexivity|]
           end; reflexivity.
Qed.

End FilterRules.

(** ** What the pass keeps true of its lines and records *)

Lemma lstrip_length (s : str) : (length (lstrip s) <= length s)%nat.
Proof.
  induction s as [|c s IH]; simpl; [lia|]. destruct (isspace c); simpl; lia.
Qed.

Lemma lstrip_fixed_head (s : str) :
  s <> [] -> lstrip s = s -> exists c s', s = c :: s' /\ isspace c = false.
Proof.
  intros Hne H. destruct s as [|c s]; [congruence|]. exists c, s. split; [reflexivity|].
  simpl in H. destruct (isspace c); [|reflexivity].
  pose proof (lstrip_length s) as L. rewrite H in L. simpl in L. lia.
Qed.

Lemma trimmed_head (s : str) :
  trimmed s -> exists c s', s = c :: s' /\ isspace c = false.
Proof.
  intros [Hne H]. apply lstrip_fixed_head; [exact Hne|].
  rewrite <- H at 1. rewrite lstrip_strip. exact H.
Qed.

Lemma trimmed_last (s : str) :
  trimmed s -> exists s' d, s = s' ++ [d] /\ isspace d = false.
Proof.
  intros [Hne H].
  assert (Hl : lstrip s = s) by (rewrite <- H at 1; rewrite lstrip_strip; exact H).
  assert (Hr : lstrip (rev s) = rev s).
  { unfold strip in H. rewrite Hl in H. unfold rstrip in H.
    apply (f_equal (@rev Z)) in H. now rewrite rev_involutive in H. }
  destruct (lstrip_fixed_head (rev s)) as (d & r & E & Hd); [|exact Hr|].
  - intros E. apply (f_equal (@rev Z)) in E. rewrite rev_involutive in E. now subst.
  - exists (rev r), d. split; [|exact Hd].
    apply (f_equal (@rev Z)) in E. rewrite rev_involutive in E. exact E.
Qed.

Lemma trimmed_app (a b : str) : trimmed a -> trimmed b -> trimmed (a ++ b).
Proof.
  intros Ha Hb.
  destruct (trimmed_head a Ha) as (c & a' & -> & Hc).
  destruct (trimmed_last b Hb) as (b' & d & -> & Hd).
  split; [discriminate|].
  replace ((c :: a') ++ b' ++ [d]) with (c :: (a' ++ b') ++ [d])
    by (simpl; now rewrite <- app_assoc).
  now apply strip_ends.
Qed.

Lemma trimmed_concat (g : list str) :
  g <> [] -> Forall trimmed g -> trimmed (concat g).
Proof.
  intros Hne H. induction H as [|x g Hx Hg IH]; [congruence|].
  destruct g as [|y g].
  - simpl. now rewrite app_nil_r.
  - simpl concat. apply trimmed_app; [exact Hx|]. apply IH. discriminate.
Qed.

Section PassInvariants.

Context {U : UnicodeTables}.

Lemma segments_groups (ls : list str) : forall pending : list str,
  Forall (fun l => is_title l = false) pending ->
  exists groups : list (list str),
    concat groups = pending ++ ls /\
    segments ls pending = map (@concat Z) groups /\
    Forall (fun g => (exists t, g = [t] /\ is_title t = true) \/
                     (g <> [] /\ Forall (fun l => is_title l = false) g))
           groups.
Proof.
  induction ls as [|l ls IH]; intros pending Hp.
  - destruct (merge_lines_grouping pending) as (groups & H1 & H2 & H3).
    exists groups. rewrite app_nil_r. split; [exact H1|]. split; [exact H3|].
    rewrite <- H1 in Hp. apply Forall_concat in Hp.
    rewrite Forall_forall in *. intros g Hg. right. auto.
  - simpl segments. destruct (is_title l) eqn:E.
    + destruct (merge_lines_grouping pending) as (gp & H1 & H2 & H3).
      destruct (IH [] (Forall_nil _)) as (gr & G1 & G2 & G3).
      exists (gp ++ [l] :: gr). split; [|split].
      * rewrite concat_app. simpl. now rewrite H1, G1.
      * rewrite map_app, H3, G2. simpl. now rewrite app_nil_r.
      * apply Forall_app. split.
        -- rewrite <- H1 in Hp. apply Forall_concat in Hp.
           rewrite Forall_forall in *. intros g Hg. right. auto.
        -- constructor; [left; now exists l | exact G3].
    + destruct (IH (pending ++ [l])) as (groups & G1 & G2 & G3).
      { apply Forall_app. split; [exact Hp | now constructor]. }
      exists groups. rewrite <- app_assoc in G1. auto.
Qed.

(** X14: the second loop never merges across a heading: its result is
    the lines cut into consecutive groups, each one heading by itself or
    one or more lines that are no headings, every group joined into one
    line. *)
Theorem processed_lines_keep_headings_apart (all : list str) :
  exists groups : list (list str),
    concat groups = all /\
    processed_lines all = Some (map (@concat Z) groups) /\
    Forall (fun g => (exists t, g = [t] /\ is_title t = true) \/
                     (g <> [] /\ Forall (fun l => is_title l = false) g))
           groups.
Proof.
  destruct (segments_groups all [] (Forall_nil _)) as (groups & H1 & H2 & H3).
  exists groups. rewrite processed_lines_segments, H2. auto.
Qed.

Lemma identify_structure_text (text : str) : snd (identify_structure text) = text.
Proof.
  unfold identify_structure.
  repeat match goal with
         | |- snd (if ?c then _ else _) = _ => destruct c; [reflexivity|]
         end.
  reflexivity.
Qed.

Lemma prepared_trimmed (lines : list str) : Forall trimmed (prepared lines).
Proof.
  unfold prepared. apply Forall_forall. intros x Hx.
  apply in_map_iff in Hx as (l & <- & Hl). apply filter_In in Hl as [_ Hl].
  apply andb_true_iff in Hl as [_ Hk]. unfold kept in Hk.
  apply andb_true_iff in Hk as [Hk _]. apply negb_true_iff, is_empty_false in Hk.
  split; [exact Hk | apply strip_idem].
Qed.

(** X15: every record the pass returns is the classification of its own
    text, and that text is not empty and has no white space at either
    end. *)
Theorem records_are_well_formed (lines : list str) :
  exists records : list record,
    structuring_pass lines = Some records /\
    Forall (fun r : record => identify_structure (snd r) = r /\ trimmed (snd r)) records.
Proof.
  rewrite structuring_pass_segments. eexists. split; [reflexivity|].
  destruct (segments_groups (prepared lines) [] (Forall_nil _)) as (groups & H1 & H2 & H3).
  rewrite H2. simpl in H1.
  pose proof (prepared_trimmed lines) as Ht. rewrite <- H1 in Ht.
  apply Forall_concat in Ht.
  apply Forall_forall. intros r Hr.
  apply in_flat_map in Hr as (x & Hx & Hr).
  unfold emit in Hr. destruct (label_in _ _); [contradiction|].
  destruct Hr as [<- | []]. rewrite identify_structure_text. split; [reflexivity|].
  apply in_map_iff in Hx as (g & <- & Hg).
  rewrite Forall_forall in H3, Ht.
  apply trimmed_concat; [|exact (Ht g Hg)].
  destruct (H3 g Hg) as [(t & -> & _) | [Hne _]]; [discriminate | exact Hne].
Qed.

End PassInvariants.

Section PassEdges.

Context {U : UnicodeTables}.

Lemma segments_no_titles (ls : list str) : forall pending : list str,
  Forall (fun l => is_title l = false) ls ->
  segments ls pending = merge_lines (pending ++ ls).
Proof.
  induction ls as [|l ls IH]; intros pending H; simpl.
  - now rewrite app_nil_r.
  - inversion H as [|? ? Hl Hls]; subst. rewrite Hl, (IH _ Hls), <- app_assoc.
    reflexivity.
Qed.

Lemma segments_all_titles (ls : list str) :
  Forall (fun l => is_title l = true) ls -> segments ls [] = ls.
Proof.
  induction 1 as [|l ls Hl _ IH]; simpl; [reflexivity|]. now rewrite Hl, IH.
Qed.

(** X16: the two ends of the second loop: with no heading among the
    lines, all of them go through [merge_lines] as one run; with headings
    only, every line stays as it is, however short. *)
Theorem processed_lines_edges (all : list str) :
  (Forall (fun l => is_title l = false) all ->
   processed_lines all = Some (merge_lines all)) /\
  (Forall (fun l => is_title l = true) all -> processed_lines all = Some all).
Proof.
  rewrite processed_lines_segments. split; intros H.
  - now rewrite (segments_no_titles all [] H).
  - now rewrite (segments_all_titles all H).
Qed.

End PassEdges.

Lemma pages_with_text_from (pages : list (option str)) :
  forall (k n : nat) (text : str),
    In (n, text) (pages_with_text k pages) <->
    exists i, n = (k + i)%nat /\ nth_error pages i = Some (Some text) /\ text <> [].
Proof.
  induction pages as [|page pages IH]; intros k n text.
  - simpl. split; [intros [] | intros (i & _ & H & _); destruct i; discriminate].
  - assert (Hrest : In (n, text) (pages_with_text (S k) pages) <->
                    exists i, n = (k + S i)%nat /\
                              nth_error pages i = Some (Some text) /\ text <> []).
    { rewrite IH. split; intros (i & E & H); exists i; (split; [lia | exact H]). }
    assert (Hskip : (forall t, page = Some t -> t = []) ->
                    ((exists i, n = (k + i)%nat /\
                                nth_error (page :: pages) i = Some (Some text) /\
                                text <> []) <->
                     exists i, n = (k + S i)%nat /\
                               nth_error pages i = Some (Some text) /\ text <> [])).
    { intros Hp. split.
      - intros ([|i] & E & H & Hne); [|now exists i].
        simpl in H. injection H as H. specialize (Hp text H). congruence.
      - intros (i & E & H). now exists (S i). }
    simpl pages_with_text. destruct page as [t|].
    + destruct (is_empty t) eqn:Et.
      * apply is_empty_true in Et. rewrite Hrest, Hskip; [reflexivity|].
        intros t' E. injection E as <-. exact Et.
      * apply is_empty_false in Et. simpl In. rewrite Hrest. split.
        -- intros [E | (i & E & H)].
           ++ injection E as <- <-. exists O. repeat split; auto.
           ++ now exists (S i).
        -- intros ([|i] & E & H & Hne).
           ++ left. simpl in H. injection H as <-. f_equal. lia.
           ++ right. now exists i.
    + rewrite Hrest, Hskip; [reflexivity | discriminate].
Qed.

(** X17: the chunks of the raw text are those of the pages that have
    text, and the number written in a chunk's marker is the position of
    its page in the document, counted from 1 and counting the pages
    without text. *)
Theorem extracted_chunks_are_numbered (pages : list (option str)) :
  snd (fold_left extract_step pages (1%nat, [])) =
  map (fun p => page_chunk (fst p) (snd p)) (pages_with_text 1 pages) /\
  (forall (n : nat) (text : str),
      In (n, text) (pages_with_text 1 pages) <->
      exists i, n = S i /\ nth_error pages i = Some (Some text) /\ text <> []).
Proof.
  split; [apply extract_fold|]. intros n text. apply pages_with_text_from.
Qed.

(** ** Witnesses for the properties above *)

Lemma merge_lines_all_witness :
  merge_lines [u "This is a very long sentence that wraps";
               u "across two lines without punctuation"] =
  [concat [u "This is a very long sentence that wraps";
           u "across two lines without punctuation"]].
Proof.
  apply merge_lines_all; [discriminate|].
  apply Forall_cons; [|apply Forall_cons; [|apply Forall_nil]];
    (split; [vm_compute; lia | split; intros E]);
    [apply ends_with_mark_iff in E | apply starts_with_mark_iff in E
    |apply ends_with_mark_iff in E | apply starts_with_mark_iff in E];
    vm_compute in E; discriminate E.
Defined.

Lemma split_join_inverse_witness :
  split_newline (join nl [u "a"; u ""; u "b c"]) = [u "a"; u ""; u "b c"].
Proof.
  destruct split_join_inverse as [_ H]. apply H; [discriminate|].
  repeat constructor; vm_compute; intuition discriminate.
Defined.

Lemma chapter_lines_are_chapters_witness :
  @identify_structure plain_tables (u "第" ++ u "十二" ++ u "章") =
  (chapter, u "第" ++ u "十二" ++ u "章") /\
  @identify_structure plain_tables (u "第" ++ u "十二" ++ u "章" ++ u "　" ++ u "引言") =
  (chapter, u "第" ++ u "十二" ++ u "章" ++ u "　" ++ u "引言").
Proof.
  destruct (@chapter_lines_are_chapters plain_tables (u "十二")) as [H1 H2];
    [discriminate | reflexivity |].
  split; [exact H1|]. apply H2; [discriminate | reflexivity].
Defined.

Lemma section_marker_lines_are_sections_witness :
  @identify_structure plain_tables (u "第" ++ u "3" ++ u "节" ++ u "方法") =
  (section, u "第" ++ u "3" ++ u "节" ++ u "方法").
Proof.
  apply (@section_marker_lines_are_sections plain_tables); [discriminate | reflexivity].
Defined.

Lemma appendix_prefix_lines_witness :
  @identify_structure plain_tables (u "APPENDIX" ++ u "es are listed below") =
  (appendix, u "APPENDIX" ++ u "es are listed below").
Proof.
  destruct (@appendix_prefix_lines plain_tables) as [_ H]. apply H. reflexivity.
Defined.

Lemma keyword_lines_are_noise_witness :
  @is_header_footer plain_tables (u "Printed " ++ u "©" ++ u " 2020") = true.
Proof.
  apply (@keyword_lines_are_noise plain_tables). simpl. now left.
Defined.

Lemma page_labels_are_noise_witness :
  @is_header_footer plain_tables (u "第" ++ u " " ++ u "3" ++ u " " ++ u "页") = true /\
  @is_header_footer plain_tables
    (u "Page" ++ u " " ++ u "3" ++ u " " ++ u "of" ++ [] ++ u "20") = true.
Proof.
  apply (@page_labels_are_noise plain_tables); (discriminate || reflexivity).
Defined.

Lemma processed_lines_edges_witness :
  @processed_lines plain_tables [u "1.1 A"; u "1.2 B"] = Some [u "1.1 A"; u "1.2 B"].
Proof.
  destruct (@processed_lines_edges plain_tables [u "1.1 A"; u "1.2 B"]) as [_ H].
  apply H. repeat constructor.
Defined.

(** ** Letter case in the classifier *)

Lemma tolower_letter (c x : Z) :
  ascii_tolower c = x -> ascii_lower x = true -> c = x \/ c = x - 32.
Proof.
  unfold ascii_tolower, ascii_upper, ascii_lower.
  destruct ((65 <=? c) && (c <=? 90)); intros H _; [right | left]; lia.
Qed.

Section LetterCase.

Context {U : UnicodeTables}.

(** The text the case-insensitive rules see for a word in Latin letters. *)
Lemma text_lower_word (w : str) :
  w <> [] -> forallb is_ascii (map ascii_tolower w) = true ->
  forallb (fun c => negb (isspace c)) (map ascii_tolower w) = true ->
  strip (lower w) = map ascii_tolower w.
Proof.
  intros Hne Ha Hs. unfold lower.
  rewrite <- (app_nil_r w) at 1.
  rewrite (lower_from_prefix w [] [] (tolower_ascii_all w Ha)). simpl lower_from.
  rewrite app_nil_r.
  rewrite <- (strip_surrounded [] (map ascii_tolower w) []) at 2; auto.
  - now rewrite app_nil_r.
  - destruct w; [congruence | discriminate].
Qed.

Lemma preface_matches (word : str) :
  word = u "preface" \/ word = u "introduction" \/ word = u "acknowledgement" ->
  re_match re_preface word = true.
Proof.
  intros H. apply re_match_true. exists ((0 + length word)%nat, []).
  unfold re_preface, lit. rewrite <- (app_nil_r word) at 2.
  eapply in_run_cat; [apply in_run_bos|].
  apply in_run_cat with ((0 + length word)%nat, []); [|simpl; now left].
  do 5 (apply in_run_alt; right).
  destruct H as [-> | [-> | ->]].
  - apply in_run_alt; left. apply in_run_lits.
  - apply in_run_alt; right. apply in_run_alt; left. apply in_run_lits.
  - apply in_run_alt; right. apply in_run_alt; right. apply in_run_lits.
Qed.

Lemma references_matches : re_match re_references (u "references") = true.
Proof. vm_compute. reflexivity. Qed.

Lemma toc_not_word (word : str) :
  word = u "preface" \/ word = u "introduction" \/ word = u "acknowledgement" \/
  word = u "references" ->
  re_match re_toc word = false.
Proof.
  intros [-> | [-> | [-> | ->]]]; vm_compute; reflexivity.
Qed.

(** X18: letter case does not matter for the front-matter words and the
    references word: [preface], [introduction] and [acknowledgement] in
    any mix of capitals and small letters are a preface, [references]
    in any mix is the references heading; the text is kept as written. *)
Theorem front_matter_words_in_any_case (w : str) :
  (map ascii_tolower w = u "preface" \/ map ascii_tolower w = u "introduction" \/
   map ascii_tolower w = u "acknowledgement" ->
   identify_structure w = (preface, w)) /\
  (map ascii_tolower w = u "references" -> identify_structure w = (references, w)).
Proof.
  split.
  - intros H.
    assert (E : strip (lower w) = map ascii_tolower w).
    { apply text_lower_word.
      - destruct w; [destruct H as [H | [H | H]]; discriminate H | discriminate].
      - destruct H as [-> | [-> | ->]]; reflexivity.
      - destruct H as [-> | [-> | ->]]; reflexivity. }
    unfold identify_structure. rewrite E, toc_not_word, preface_matches; auto.
    tauto.
  - intros H.
    assert (E : strip (lower w) = u "references").
    { rewrite <- H. apply text_lower_word.
      - destruct w; discriminate.
      - rewrite H. reflexivity.
      - rewrite H. reflexivity. }
    unfold identify_structure. rewrite E.
    rewrite (toc_not_word (u "references")) by tauto.
    change (re_match re_preface (u "references")) with false.
    change (re_match re_appendix (u "references")) with false.
    rewrite references_matches.
    destruct w as [|c w]; [discriminate|]. injection H as Hc _.
    destruct (tolower_letter c 114 Hc eq_refl) as [-> | ->].
    + rewrite (re_match_first re_chapter_bare 114 _ eq_refl eq_refl),
        (re_match_first re_chapter_title 114 _ eq_refl eq_refl),
        (re_match_first re_numbered 114 _ eq_refl eq_refl),
        (re_match_first re_section_cn 114 _ eq_refl eq_refl).
      reflexivity.
    + change (114 - 32) with 82.
      rewrite (re_match_first re_chapter_bare 82 _ eq_refl eq_refl),
        (re_match_first re_chapter_title 82 _ eq_refl eq_refl),
        (re_match_first re_numbered 82 _ eq_refl eq_refl),
        (re_match_first re_section_cn 82 _ eq_refl eq_refl).
      reflexivity.
Qed.

End LetterCase.

Lemma front_matter_words_in_any_case_witness :
  @identify_structure plain_tables (u "PreFace") = (preface, u "PreFace").
Proof.
  destruct (@front_matter_words_in_any_case plain_tables (u "PreFace")) as [H _].
  apply H. left. reflexivity.
Defined.

(** ** Page markers and merging *)

(** What [should_merge_lines] accepts it still accepts when text has been
    put before the first line. *)
Lemma should_merge_lines_longer (x sa sb : str) :
  should_merge_lines sa sb = true -> should_merge_lines (x ++ sa) sb = true.
Proof.
  rewrite !should_merge_lines_true_iff. intros (Ha & Hb & He & Hs & Hl).
  repeat split; auto.
  - destruct x; [exact Ha | discriminate].
  - intros H. apply He. now apply ends_with_mark_app with x.
  - rewrite length_app. lia.
Qed.

(** The first line [merge_lines] returns begins with the first line it
    was given. *)
Lemma merge_lines_head (rest : list str) : forall cur : str,
  exists y out, merge_lines (cur :: rest) = (cur ++ y) :: out.
Proof.
  induction rest as [|z rest IH]; intros cur.
  - exists [], []. simpl. now rewrite app_nil_r.
  - rewrite merge_lines_cons_cons. destruct (should_merge_lines cur z).
    + destruct (IH (cur ++ z)) as (y & out & ->).
      exists (z ++ y), out. now rewrite <- app_assoc.
    + exists [], (merge_lines (z :: rest)). now rewrite app_nil_r.
Qed.

Lemma merge_lines_adjacent_from (sa sb : str) (l2 : list str) :
  should_merge_lines sa sb = true ->
  forall (l1 : list str) (first : str),
  exists out1 x y out2,
    merge_lines (first :: l1 ++ sa :: sb :: l2) =
    out1 ++ (x ++ sa ++ sb ++ y) :: out2.
Proof.
  intros H. induction l1 as [|z l1 IH]; intros first.
  - simpl app. rewrite merge_lines_cons_cons.
    destruct (should_merge_lines first sa).
    + rewrite merge_lines_cons_cons, (should_merge_lines_longer first sa sb H).
      destruct (merge_lines_head l2 ((first ++ sa) ++ sb)) as (y & out & ->).
      exists [], first, y, out. simpl. now rewrite <- !app_assoc.
    + rewrite merge_lines_cons_cons, H.
      destruct (merge_lines_head l2 (sa ++ sb)) as (y & out & ->).
      exists [first], [], y, out. simpl. now rewrite <- !app_assoc.
  - change (first :: (z :: l1) ++ sa :: sb :: l2)
      with (first :: z :: (l1 ++ sa :: sb :: l2)).
    rewrite merge_lines_cons_cons. destruct (should_merge_lines first z).
    + apply IH.
    + destruct (IH z) as (out1 & x & y & out2 & ->).
      now exists (first :: out1), x, y, out2.
Qed.

(** Two neighbouring lines that [should_merge_lines] accepts end up in
    one line of [merge_lines], the second directly after the first. *)
Lemma merge_lines_adjacent (sa sb : str) (l1 l2 : list str) :
  should_merge_lines sa sb = true ->
  exists out1 x y out2,
    merge_lines (l1 ++ sa :: sb :: l2) = out1 ++ (x ++ sa ++ sb ++ y) :: out2.
Proof.
  intros H. destruct l1 as [|first l1].
  - simpl app. rewrite merge_lines_cons_cons, H.
    destruct (merge_lines_head l2 (sa ++ sb)) as (y & out & ->).
    exists [], [], y, out. simpl. now rewrite <- !app_assoc.
  - now apply merge_lines_adjacent_from.
Qed.

Section MarkersAndMerging.

Context {U : UnicodeTables}.

Lemma segments_adjacent (sa sb : str) (l2 : list str) :
  is_title sa = false -> is_title sb = false ->
  should_merge_lines sa sb = true ->
  forall l1 pending : list str,
  exists out1 x y out2,
    segments (l1 ++ sa :: sb :: l2) pending = out1 ++ (x ++ sa ++ sb ++ y) :: out2.
Proof.
  intros Ha Hb H. induction l1 as [|z l1 IH]; intros pending.
  - simpl. rewrite Ha, Hb, segments_leading.
    replace (((pending ++ [sa]) ++ [sb]) ++ leading l2)
      with (pending ++ sa :: sb :: leading l2)
      by (rewrite <- !app_assoc; reflexivity).
    destruct (merge_lines_adjacent sa sb pending (leading l2) H)
      as (out1 & x & y & out2 & ->).
    exists out1, x, y, (out2 ++ segments (after_leading l2) []).
    now rewrite <- app_assoc.
  - simpl. destruct (is_title z).
    + destruct (IH []) as (out1 & x & y & out2 & ->).
      exists (merge_lines pending ++ z :: out1), x, y, out2.
      now rewrite <- app_assoc.
    + apply IH.
Qed.

Lemma prepared_markers (ms : list str) :
  Forall (fun m => is_page_marker m = true) ms -> prepared ms = [].
Proof.
  induction 1 as [|m ms Hm _ IH]; [reflexivity|].
  change (m :: ms) with ([m] ++ ms). rewrite prepared_app, IH, app_nil_r.
  unfold prepared. cbn [filter]. now rewrite Hm.
Qed.

Lemma prepared_kept (a : str) :
  is_page_marker a = false -> kept a = true -> prepared [a] = [strip a].
Proof. intros Hm Hk. unfold prepared. cbn [filter]. now rewrite Hm, Hk. Qed.

Lemma prepared_across_markers (pre post ms : list str) (a b : str) :
  Forall (fun m => is_page_marker m = true) ms ->
  is_page_marker a = false -> kept a = true ->
  is_page_marker b = false -> kept b = true ->
  prepared (pre ++ a :: ms ++ b :: post) =
  prepared pre ++ strip a :: strip b :: prepared post.
Proof.
  intros Hms Ha Ka Hb Kb.
  change (a :: ms ++ b :: post) with ([a] ++ ms ++ [b] ++ post).
  now rewrite !prepared_app, (prepared_markers ms Hms), (prepared_kept a Ha Ka),
    (prepared_kept b Hb Kb).
Qed.

(** C5, as the code has it: a page-marker line flushes the pending
    lines into the list of kept lines and leaves nothing else behind: the
    records of an input are those of the input without its page-marker
    lines, so the markers yield no record.  They separate nothing
    either: two lines with nothing but page markers between them, both
    kept by the filter and no headings, which [should_merge_lines]
    accepts once trimmed, end up in one merged line, the second directly
    after the first; and when they are the whole input, that line is the
    two of them joined. *)
Theorem page_markers_are_stripped :
  (forall (st : list str * list str) (line : str),
      is_page_marker line = true ->
      filter_step st line = flush st /\
      fst (flush st) = fst st ++ snd st /\ snd (flush st) = []) /\
  (forall lines : list str,
      structuring_pass lines =
      structuring_pass (filter (fun line => negb (is_page_marker line)) lines)) /\
  (forall lines : list str, exists records, structuring_pass lines = Some records) /\
  (forall (pre post ms : list str) (a b : str),
      Forall (fun m => is_page_marker m = true) ms ->
      is_page_marker a = false -> kept a = true -> is_title (strip a) = false ->
      is_page_marker b = false -> kept b = true -> is_title (strip b) = false ->
      should_merge_lines (strip a) (strip b) = true ->
      (exists out1 x y out2,
          processed_lines (all_text_lines (pre ++ a :: ms ++ b :: post)) =
          Some (out1 ++ (x ++ strip a ++ strip b ++ y) :: out2)) /\
      processed_lines (all_text_lines (a :: ms ++ [b])) = Some [strip a ++ strip b]).
Proof.
  split; [|split; [|split]].
  - intros st line H. unfold filter_step. rewrite H.
    split; [reflexivity|]. split; [apply flush_total | apply flush_pending].
  - intros lines. now rewrite !structuring_pass_segments, prepared_without_markers.
  - intros lines. rewrite structuring_pass_segments. now eexists.
  - intros pre post ms a b Hms Ha Ka Ta Hb Kb Tb H. split.
    + rewrite all_text_lines_prepared, processed_lines_segments,
        (prepared_across_markers pre post ms a b Hms Ha Ka Hb Kb).
      destruct (segments_adjacent (strip a) (strip b) (prepared post) Ta Tb H
                  (prepared pre) []) as (out1 & x & y & out2 & E).
      exists out1, x, y, out2. now rewrite E.
    + rewrite all_text_lines_prepared, processed_lines_segments.
      pose proof (prepared_across_markers [] [] ms a b Hms Ha Ka Hb Kb) as E.
      cbn [app] in E. change (prepared []) with (@nil str) in E. rewrite E.
      cbn [app segments]. rewrite Ta. cbn [segments]. rewrite Tb. cbn [segments app].
      rewrite merge_lines_cons_cons, H. reflexivity.
Qed.

End MarkersAndMerging.

(** A page marker met with one line pending, and the two halves of a
    sentence on either side of a page marker, the first with a space
    after it. *)
Lemma page_markers_are_stripped_witness :
  (is_page_marker (u "--- 第 2 页 ---") = true /\
   @filter_step plain_tables ([u "a"], [u "b"]) (u "--- 第 2 页 ---") =
   ([u "a"; u "b"], [])) /\
  @processed_lines plain_tables
    (@all_text_lines plain_tables
       (u "The quick brown fox jumps over " :: [u "--- 第 2 页 ---"] ++
        [u "the lazy dog and keeps running."])) =
  Some [strip (u "The quick brown fox jumps over ") ++
        strip (u "the lazy dog and keeps running.")].
Proof.
  destruct (@page_markers_are_stripped plain_tables) as (H & _ & _ & M).
  split.
  - split; [reflexivity|].
    destruct (H ([u "a"], [u "b"]) (u "--- 第 2 页 ---") eq_refl) as (-> & _ & _).
    reflexivity.
  - apply (M [] []); try (vm_compute; reflexivity).
    apply Forall_cons; [vm_compute; reflexivity | apply Forall_nil].
Defined.
